(** * DTMerger: the page catalog, the batch import and the merge pipeline

    A shallow embedding of [DTMerger.py].  The program is a small Qt
    front end around three pieces of logic:

    - [add_files]: discover the pages of a batch of files and append one
      list row per page, collecting the per-file errors;
    - [move_selected_up] / [move_selected_down]: reorder the rows;
    - [create_merged_tiff]: walk the rows in order, load or render every
      page, normalise it for the compression scheme, and save all frames
      at once; compound documents are opened through a per-call cache and
      closed in a [finally] block, inside a [TemporaryDirectory] scope.

    Library calls (Pillow, xdwlib, pathlib, Qt) are not part of the
    program text.  Their results are supplied by an environment record
    [Env] and a path class [PurePath]; every theorem below holds for all
    environments. *)

From Stdlib Require Import ZArith String Ascii List Lia.
From stdpp Require Import base option list strings gmap pretty.

Local Open Scope string_scope.
Local Open Scope list_scope.
Local Open Scope Z_scope.

(** ** Python values *)

(** The exceptions the program can see.  [IndexError] and [RuntimeError]
    are the two the program raises itself; the fields of [IndexError] are
    the values interpolated in its message.  [LibraryError] stands for any
    [Exception] raised inside a library call. *)
Inductive PyExc : Type :=
| IndexError (page_index : Z) (file_name : string) (max_index : Z)
| RuntimeError_no_pages
| LibraryError (message : string).

Inductive result (A : Type) : Type :=
| Ok (a : A)
| Raise (e : PyExc).
Arguments Ok {A} a.
Arguments Raise {A} e.

Definition is_Ok {A} (r : result A) : bool :=
  match r with Ok _ => true | Raise _ => false end.

Global Instance PyExc_eq_dec : EqDecision PyExc.
Proof. solve_decision. Defined.

(** [str.lower] on the ASCII letters.  The extension sets below contain
    ASCII letters only and no other character lowers to one of them, so
    membership of [lower s] in them agrees with Python's. *)
Definition lower_ascii (c : ascii) : ascii :=
  let n := nat_of_ascii c in
  if (Nat.leb 65 n && Nat.leb n 90)%bool then ascii_of_nat (n + 32) else c.

Fixpoint lower (s : string) : string :=
  match s with
  | EmptyString => EmptyString
  | String c rest => String (lower_ascii c) (lower rest)
  end.

(** [str.zfill]-style left padding and the format specs [{:03d}] and
    [{:05d}]: at least [width] characters, sign first. *)
Fixpoint zeros (n : nat) : string :=
  match n with O => EmptyString | S k => String "0" (zeros k) end.

Definition zero_pad (width : nat) (digits : string) : string :=
  zeros (width - String.length digits) +:+ digits.

Definition format_0d (width : nat) (n : Z) : string :=
  if n <? 0 then "-" +:+ zero_pad (width - 1) (pretty (Z.abs_N n))
  else zero_pad width (pretty (Z.to_N n)).

(** [range(n)] for a Python int: empty when [n <= 0]. *)
Definition range (n : Z) : list Z :=
  (λ i : nat, Z.of_nat i) <$> seq 0 (Z.to_nat n).

(** ** Paths *)

(** The part of [pathlib.Path] the program uses.  Equality is the
    dictionary-key equality of paths (case-insensitive on Windows), so it
    is left to the instance. *)
Class PurePath (Path : Type) := {
  Path_eq_dec :: EqDecision Path;
  Path_of_str : string → Path;
  path_name : Path → string;
  path_suffix : Path → string;
  with_suffix : Path → string → result Path;
}.

Definition TIFF_EXTENSIONS : gset string := {[ ".tif"; ".tiff" ]}.
Definition DOCUWORKS_EXTENSIONS : gset string := {[ ".xdw"; ".xbd"; ".xct" ]}.
Definition SUPPORTED_EXTENSIONS : gset string :=
  TIFF_EXTENSIONS ∪ DOCUWORKS_EXTENSIONS.

(** ** Images and documents *)

(** A decoded [PIL.Image.Image]: the mode tag, the size and the raster. *)
Record Image : Type := {
  mode : string;
  img_size : Z * Z;
  im : list Z;
}.

Global Instance Image_eq_dec : EqDecision Image.
Proof. solve_decision. Defined.

(** What [Image.open] gives for a file: the library either raises or
    returns an image file.  [n_frames] is [None] when the attribute is
    missing; [seek_copy i] is [img.seek(i); img.copy()] and [copy] is
    [img.copy()] on the freshly opened file. *)
Record ImageFile : Type := {
  n_frames : option Z;
  seek_copy : Z → result Image;
  copy : result Image;
}.

(** The bytes of a file written by a library. *)
Definition bytes : Type := list Z.

(** What [xdwopen(path, readonly=True)] returns: the page count, the
    rendering of a page ([doc.page(i).export_image(...)], the bytes it
    writes to the target path) and the outcome of [doc.close()]. *)
Record XdwDocument : Type := {
  pages : Z;
  export_image : Z → result bytes;
  close : option PyExc;
}.

Section Program.
Context {Path : Type} `{PurePath Path}.

(** The outside world as the program observes it. *)
Record Env : Type := {
  Image_open : Path → result ImageFile;
  Image_open_bytes : bytes → result ImageFile;
  xdwopen : Path → result XdwDocument;
  convert_1 : Image → result (list Z);
  Image_save : Path → Image → list Image → string → option PyExc;
  getSaveFileName : string;
}.

(** ** The page catalog *)

Record PageEntry : Type := {
  source_path : Path;
  page_index : Z;
  source_type : string;
}.

Definition label (entry : PageEntry) : string :=
  path_name (source_path entry) +:+ "-p" +:+ format_0d 3 (page_index entry + 1).

(** A list row: the displayed text and the [Qt.UserRole] payload. *)
Record QListWidgetItem : Type := {
  text : string;
  data : PageEntry;
}.

(** The list widget: the rows and the current row ([-1] when none). *)
Record QListWidget : Type := {
  items : list QListWidgetItem;
  currentRow : Z;
}.

Definition count (w : QListWidget) : Z := Z.of_nat (length (items w)).

Definition addItem (item : QListWidgetItem) (w : QListWidget) : QListWidget :=
  {| items := items w ++ [item]; currentRow := currentRow w |}.

(** [takeItem(row)]: removes and returns the row, or returns nothing when
    [row] is out of range.  When the current row is the one removed, Qt
    makes the following row current, or the preceding one when there is
    none; rows below the removed one shift up. *)
Definition takeItem (row : Z) (w : QListWidget) : option QListWidgetItem * QListWidget :=
  if (0 <=? row) && (row <? count w) then
    let cur := currentRow w in
    let cur' :=
      if cur =? row then
        (if count w =? 1 then -1
         else if row + 1 <? count w then row else row - 1)
      else if row <? cur then cur - 1 else cur in
    (items w !! Z.to_nat row,
     {| items := delete (Z.to_nat row) (items w); currentRow := cur' |})
  else (None, w).

(** [insertItem(row, item)]: the row is clamped to [0 .. count]; a null
    item is ignored; a current row at or below the insertion point shifts
    down. *)
Definition insertItem (row : Z) (item : option QListWidgetItem) (w : QListWidget)
  : QListWidget :=
  match item with
  | None => w
  | Some it =>
    let row := if row <? 0 then 0 else if count w <? row then count w else row in
    let cur := currentRow w in
    {| items := take (Z.to_nat row) (items w) ++ it :: drop (Z.to_nat row) (items w);
       currentRow := if (0 <=? cur) && (row <=? cur) then cur + 1 else cur |}
  end.

Definition setCurrentRow (row : Z) (w : QListWidget) : QListWidget :=
  {| items := items w;
     currentRow := if (0 <=? row) && (row <? count w) then row else -1 |}.

Definition move_selected_up (page_list : QListWidget) : QListWidget :=
  let row := currentRow page_list in
  if row <=? 0 then page_list
  else
    let '(item, page_list) := takeItem row page_list in
    let page_list := insertItem (row - 1) item page_list in
    setCurrentRow (row - 1) page_list.

Definition move_selected_down (page_list : QListWidget) : QListWidget :=
  let row := currentRow page_list in
  if (row <? 0) || (count page_list - 1 <=? row) then page_list
  else
    let '(item, page_list) := takeItem row page_list in
    let page_list := insertItem (row + 1) item page_list in
    setCurrentRow (row + 1) page_list.

Definition collect_entries (page_list : QListWidget) : list PageEntry :=
  data <$> items page_list.

(** ** Batch import *)

(** The message boxes the program shows.  The warning carries the
    collected [errors]: one [(file name, exception)] per line of the
    joined message. *)
Inductive Dialog : Type :=
| QMessageBox_warning (errors : list (string * PyExc))
| QMessageBox_information_no_pages
| QMessageBox_critical (exc : PyExc)
| QMessageBox_information_done (output_path : Path).

Definition get_tiff_page_count (env : Env) (path : Path) : result Z :=
  match Image_open env path with
  | Raise e => Raise e
  | Ok img => Ok (default 1 (n_frames img))
  end.

(** [with xdwopen(...) as doc: return doc.pages]: leaving the [with]
    block closes the document, and an exception raised there replaces
    the returned value. *)
Definition get_docuworks_page_count (env : Env) (path : Path) : result Z :=
  match xdwopen env path with
  | Raise e => Raise e
  | Ok doc =>
    match close doc with
    | Some e => Raise e
    | None => Ok (pages doc)
    end
  end.

Definition new_item (path : Path) (source_type : string) (page_index : Z)
  : QListWidgetItem :=
  let entry := {| source_path := path; page_index := page_index;
                  source_type := source_type |} in
  {| text := label entry; data := entry |}.

(** The [try] block of [add_files]: the page count and the source type,
    or nothing when the extension falls through to [else: continue]. *)
Definition try_page_count (env : Env) (path : Path) : option (result Z * string) :=
  let ext := lower (path_suffix path) in
  if decide (ext ∈ TIFF_EXTENSIONS) then
    Some (get_tiff_page_count env path, "tiff")
  else if decide (ext ∈ DOCUWORKS_EXTENSIONS) then
    Some (get_docuworks_page_count env path, "docuworks")
  else None.

(** One round of the [for path in paths] loop, on the list widget and the
    [errors] list. *)
Definition add_files_step (env : Env) (path : Path)
    (st : QListWidget * list (string * PyExc)) : QListWidget * list (string * PyExc) :=
  let '(page_list, errors) := st in
  match try_page_count env path with
  | None => (page_list, errors)
  | Some (Raise exc, _) => (page_list, errors ++ [(path_name path, exc)])
  | Some (Ok page_count, source_type) =>
    (foldl (λ w page_index, addItem (new_item path source_type page_index) w)
           page_list (range page_count),
     errors)
  end.

Definition add_files (env : Env) (paths : list Path) (page_list : QListWidget)
  : QListWidget * list Dialog :=
  let '(page_list, errors) :=
    foldl (λ st path, add_files_step env path st) (page_list, []) paths in
  (page_list,
   match errors with
   | [] => []
   | _ :: _ => [QMessageBox_warning errors]
   end).

(** ** The merge pipeline *)

(** What one merge does to the outside world, in order.  A handle is the
    identity of a document object returned by [xdwopen]. *)
Inductive Event : Type :=
| EvMkdtemp
| EvRmtree
| EvXdwOpen (path : Path) (handle : nat)
| EvExportImage (handle : nat) (page : Z) (temp_name : string)
| EvXdwClose (handle : nat)
| EvXdwCloseFailed (handle : nat)
| EvSave (output_path : Path) (frames : list Image) (compression : string)
         (dpi : Z * Z)
| EvSaveFailed (output_path : Path).

(** The objects one call of [create_merged_tiff] works on: the temporary
    directory (absent outside the [with] block), the two mutable locals
    [frames] and [xdw_docs] (a dict, in insertion order), the supply of
    handles and the trace. *)
Record MergeState : Type := {
  temp_dir : option (gmap string bytes);
  frames : list Image;
  xdw_docs : list (Path * (nat * XdwDocument));
  next_handle : nat;
  events : list Event;
}.

Definition initial : MergeState :=
  {| temp_dir := None; frames := []; xdw_docs := []; next_handle := 0;
     events := [] |}.

(** State and exceptions: the state survives a raise, as Python objects
    do. *)
Definition M (A : Type) : Type := MergeState → result A * MergeState.

Definition ret {A} (a : A) : M A := λ s, (Ok a, s).
Definition raise {A} (e : PyExc) : M A := λ s, (Raise e, s).
Definition bind {A B} (m : M A) (k : A → M B) : M B :=
  λ s, match m s with
       | (Ok a, s') => k a s'
       | (Raise e, s') => (Raise e, s')
       end.
Definition lift {A} (r : result A) : M A := λ s, (r, s).
Definition emit (ev : Event) : M unit :=
  λ s, (Ok tt, {| temp_dir := temp_dir s; frames := frames s;
                  xdw_docs := xdw_docs s; next_handle := next_handle s;
                  events := events s ++ [ev] |}).

Global Instance M_ret : MRet M := @ret.
Global Instance M_bind : MBind M := λ A B k m, bind m k.

(** [try: body finally: fin]: [fin] always runs; its exception, if any,
    replaces the outcome of [body]. *)
Definition try_finally {A} (body : M A) (fin : M unit) : M A :=
  λ s, let '(r, s1) := body s in
       match fin s1 with
       | (Ok _, s2) => (r, s2)
       | (Raise e, s2) => (Raise e, s2)
       end.

(** [with tempfile.TemporaryDirectory() as temp_dir: body]: the directory
    is created empty, and removed with its contents when the block is
    left, whatever the outcome.  Creating and removing it are taken to
    succeed. *)
Definition with_TemporaryDirectory {A} (body : M A) : M A :=
  λ s, let s0 := {| temp_dir := Some ∅; frames := frames s;
                    xdw_docs := xdw_docs s; next_handle := next_handle s;
                    events := events s ++ [EvMkdtemp] |} in
       let '(r, s1) := body s0 in
       (r, {| temp_dir := None; frames := frames s1;
              xdw_docs := xdw_docs s1; next_handle := next_handle s1;
              events := events s1 ++ [EvRmtree] |}).

Fixpoint dict_get {V} (key : Path) (d : list (Path * V)) : option V :=
  match d with
  | [] => None
  | (k, v) :: rest => if decide (k = key) then Some v else dict_get key rest
  end.

Definition load_tiff_page (env : Env) (path : Path) (page_index : Z) : result Image :=
  match Image_open env path with
  | Raise e => Raise e
  | Ok img =>
    let max_index := default 1 (n_frames img) - 1 in
    if max_index <? page_index then
      Raise (IndexError page_index (path_name path) max_index)
    else seek_copy img page_index
  end.

Definition temp_tiff_name (order : nat) : string :=
  "docuworks_" +:+ format_0d 5 (Z.of_nat order) +:+ ".tif".

(** [opened_docs] is the caller's dict, shared by reference: it is the
    [xdw_docs] cell of the state. *)
Definition convert_docuworks_page (env : Env) (entry : PageEntry) (order : nat)
  : M Image :=
  λ s,
  let opened :=
    match dict_get (source_path entry) (xdw_docs s) with
    | Some doc => (Ok doc, s)
    | None =>
      match xdwopen env (source_path entry) with
      | Raise e => (Raise e, s)
      | Ok d =>
        let doc := (next_handle s, d) in
        (Ok doc,
         {| temp_dir := temp_dir s; frames := frames s;
            xdw_docs := xdw_docs s ++ [(source_path entry, doc)];
            next_handle := S (next_handle s);
            events := events s ++ [EvXdwOpen (source_path entry) (next_handle s)] |})
      end
    end in
  match opened with
  | (Raise e, s) => (Raise e, s)
  | (Ok (handle, d), s) =>
    let temp_tiff := temp_tiff_name order in
    match export_image d (page_index entry), temp_dir s with
    | Raise e, _ => (Raise e, s)
    | Ok _, None => (Raise (LibraryError "FileNotFoundError"), s)
    | Ok written, Some dir =>
      let s := {| temp_dir := Some (<[temp_tiff := written]> dir);
                  frames := frames s; xdw_docs := xdw_docs s;
                  next_handle := next_handle s;
                  events := events s
                            ++ [EvExportImage handle (page_index entry) temp_tiff] |} in
      match temp_dir s ≫= (.!! temp_tiff) with
      | None => (Raise (LibraryError "FileNotFoundError"), s)
      | Some content =>
        match Image_open_bytes env content with
        | Raise e => (Raise e, s)
        | Ok img => (copy img, s)
        end
      end
    end
  end.

(** [img.convert("1")] returns a new image of the requested mode and the
    same size. *)
Definition ensure_group4_mode (env : Env) (img : Image) : result Image :=
  if String.eqb (mode img) "1" then Ok img
  else match convert_1 env img with
       | Raise e => Raise e
       | Ok raster => Ok {| mode := "1"; img_size := img_size img; im := raster |}
       end.

Definition frames_append (frame : Image) : M unit :=
  λ s, (Ok tt, {| temp_dir := temp_dir s; frames := frames s ++ [frame];
                  xdw_docs := xdw_docs s; next_handle := next_handle s;
                  events := events s |}).

(** [for order, entry in enumerate(entries)], from [order] on. *)
Fixpoint page_loop (env : Env) (compression : string) (order : nat)
    (entries : list PageEntry) : M unit :=
  match entries with
  | [] => ret tt
  | entry :: rest =>
    frame ← (if String.eqb (source_type entry) "tiff" then
               lift (load_tiff_page env (source_path entry) (page_index entry))
             else convert_docuworks_page env entry order);
    frame ← (if String.eqb compression "group4" then
               lift (ensure_group4_mode env frame)
             else ret frame);
    frames_append frame;;
    page_loop env compression (S order) rest
  end.

(** [for doc in xdw_docs.values(): doc.close()]. *)
Fixpoint close_each (docs : list (Path * (nat * XdwDocument))) : M unit :=
  match docs with
  | [] => ret tt
  | (_, (handle, d)) :: rest =>
    match close d with
    | None => emit (EvXdwClose handle) ;; close_each rest
    | Some e => emit (EvXdwCloseFailed handle) ;; raise e
    end
  end.

Definition close_opened : M unit := λ s, close_each (xdw_docs s) s.

Definition save_frames (env : Env) (output_path : Path) (compression : string)
  : M unit :=
  λ s, match frames s with
       | [] => (Raise RuntimeError_no_pages, s)
       | first :: rest =>
         match Image_save env output_path first rest compression with
         | None => emit (EvSave output_path (first :: rest) compression (400, 400)) s
         | Some e => (emit (EvSaveFailed output_path) ;; raise e) s
         end
       end.

(** The two locals start empty on every call.  The closing of the
    frames after the save touches nothing outside the process and is
    left out. *)
Definition create_merged_tiff (env : Env) (entries : list PageEntry)
    (output_path : Path) (compression : string) : M unit :=
  λ s,
  let s := {| temp_dir := temp_dir s; frames := []; xdw_docs := [];
              next_handle := next_handle s; events := events s |} in
  (with_TemporaryDirectory
     (try_finally (page_loop env compression 0 entries) close_opened) ;;
   save_frames env output_path compression) s.

(** The result is what escapes to the event loop, the message boxes
    shown, and the state the merge ended in ([initial] when no merge was
    started). *)
Definition export_tiff (env : Env) (compression : string) (page_list : QListWidget)
  : result unit * list Dialog * MergeState :=
  if count page_list =? 0 then
    (Ok tt, [QMessageBox_information_no_pages], initial)
  else
    let output_path_text := getSaveFileName env in
    if String.eqb output_path_text EmptyString then (Ok tt, [], initial)
    else
      let output_path := Path_of_str output_path_text in
      let renamed :=
        if decide (lower (path_suffix output_path) ∈ TIFF_EXTENSIONS)
        then Ok output_path
        else with_suffix output_path ".tif" in
      match renamed with
      | Raise e => (Raise e, [], initial)
      | Ok output_path =>
        let entries := collect_entries page_list in
        match create_merged_tiff env entries output_path compression initial with
        | (Raise exc, s) => (Ok tt, [QMessageBox_critical exc], s)
        | (Ok _, s) => (Ok tt, [QMessageBox_information_done output_path], s)
        end
      end.

(** ** Reading a trace *)

Definition opened (evs : list Event) : list (Path * nat) :=
  omap (λ ev, match ev with EvXdwOpen p h => Some (p, h) | _ => None end) evs.

(** The handles on which [close] was called, in order; [closed] keeps
    the calls that returned, [close_failures] the calls that raised. *)
Definition close_calls (evs : list Event) : list nat :=
  omap (λ ev, match ev with
              | EvXdwClose h | EvXdwCloseFailed h => Some h
              | _ => None
              end) evs.

Definition closed (evs : list Event) : list nat :=
  omap (λ ev, match ev with EvXdwClose h => Some h | _ => None end) evs.

Definition close_failures (evs : list Event) : list nat :=
  omap (λ ev, match ev with EvXdwCloseFailed h => Some h | _ => None end) evs.

Definition saves (evs : list Event) : list (Path * list Image * string * (Z * Z)) :=
  omap (λ ev, match ev with
              | EvSave out fs c dpi => Some (out, fs, c, dpi)
              | _ => None
              end) evs.

(** A write to the output path, finished or not. *)
Definition writes_output (ev : Event) : bool :=
  match ev with EvSave _ _ _ _ | EvSaveFailed _ => true | _ => false end.

(** Anything that creates, changes or removes a file or a directory. *)
Definition is_fs_write (ev : Event) : bool :=
  match ev with
  | EvMkdtemp | EvRmtree | EvExportImage _ _ _ | EvSave _ _ _ _
  | EvSaveFailed _ => true
  | EvXdwOpen _ _ | EvXdwClose _ | EvXdwCloseFailed _ => false
  end.

(** ** The contracts of the specification, for comparison

    [spec_extract_frame] and [spec_normalize] follow the specification's
    [extract_frame(path, page_index)] and [normalize(frame, scheme)]: the
    frame of one page reference taken on its own, without cache,
    temporary directory or order counter. *)
Definition spec_extract_frame (env : Env) (entry : PageEntry) : result Image :=
  if String.eqb (source_type entry) "tiff" then
    load_tiff_page env (source_path entry) (page_index entry)
  else
    match xdwopen env (source_path entry) with
    | Raise e => Raise e
    | Ok d =>
      match export_image d (page_index entry) with
      | Raise e => Raise e
      | Ok written =>
        match Image_open_bytes env written with
        | Raise e => Raise e
        | Ok img => copy img
        end
      end
    end.

Definition spec_normalize (env : Env) (compression : string) (frame : Image)
  : result Image :=
  if String.eqb compression "group4" then ensure_group4_mode env frame
  else Ok frame.

Definition spec_page (env : Env) (compression : string) (entry : PageEntry)
  : result Image :=
  match spec_extract_frame env entry with
  | Raise e => Raise e
  | Ok frame => spec_normalize env compression frame
  end.

Fixpoint spec_pages (env : Env) (compression : string) (entries : list PageEntry)
  : result (list Image) :=
  match entries with
  | [] => Ok []
  | entry :: rest =>
    match spec_page env compression entry with
    | Raise e => Raise e
    | Ok frame =>
      match spec_pages env compression rest with
      | Raise e => Raise e
      | Ok fs => Ok (frame :: fs)
      end
    end
  end.

(** The outcome of a merge with the closing of the documents left
    aside: the first page failure, the empty check, or the save. *)
Definition primary_result (env : Env) (entries : list PageEntry)
    (output_path : Path) (compression : string) : result unit :=
  match spec_pages env compression entries with
  | Raise e => Raise e
  | Ok [] => Raise RuntimeError_no_pages
  | Ok (first :: rest) =>
    match Image_save env output_path first rest compression with
    | None => Ok tt
    | Some e => Raise e
    end
  end.

(** The paths of the entries rendered through a compound document. *)
Definition docuworks_paths (entries : list PageEntry) : list Path :=
  source_path <$> filter (λ e, String.eqb (source_type e) "tiff" = false) entries.

(** No document the entries can open fails to close. *)
Definition closes_cleanly (env : Env) (entries : list PageEntry) : Prop :=
  ∀ p d, p ∈ docuworks_paths entries → xdwopen env p = Ok d → close d = None.

(** The outcome of [add_files] per file: the rows a file contributes and
    the error it reports. *)
Definition supported (path : Path) : Prop :=
  lower (path_suffix path) ∈ SUPPORTED_EXTENSIONS.

Global Instance supported_dec path : Decision (supported path).
Proof. unfold supported. apply _. Defined.

Definition rows_of (env : Env) (path : Path) : list QListWidgetItem :=
  match try_page_count env path with
  | Some (Ok page_count, source_type) =>
    new_item path source_type <$> range page_count
  | _ => []
  end.

Definition error_of (env : Env) (path : Path) : option (string * PyExc) :=
  match try_page_count env path with
  | Some (Raise exc, _) => Some (path_name path, exc)
  | _ => None
  end.

(** A supported file whose page count cannot be determined. *)
Definition fails_to_count (env : Env) (path : Path) : Prop :=
  is_Some (error_of env path).

Global Instance fails_to_count_dec env path : Decision (fails_to_count env path).
Proof. unfold fails_to_count. apply _. Defined.

(** ** What the proofs keep track of *)

(** The state reached inside the [with] block, before the [finally]
    clause runs: the directory exists, the cache holds what [xdwopen]
    returned, one entry per path, with the handles [n0, n0+1, ...] in
    the order of opening, and the trace so far has exactly these opens,
    no close and no write to the output. *)
Record cache_inv (n0 : nat) (env : Env) (s : MergeState) : Prop := {
  inv_temp : is_Some (temp_dir s);
  inv_docs : Forall (λ pd, xdwopen env pd.1 = Ok pd.2.2) (xdw_docs s);
  inv_nodup : NoDup (fst <$> xdw_docs s);
  inv_handles : (λ pd, pd.2.1) <$> xdw_docs s = seq n0 (length (xdw_docs s));
  inv_next : next_handle s = (n0 + length (xdw_docs s))%nat;
  inv_opened : opened (events s) = (λ pd, (pd.1, pd.2.1)) <$> xdw_docs s;
  inv_no_close : close_calls (events s) = [];
  inv_no_output : Forall (λ ev, writes_output ev = false) (events s);
}.

(** The closing loop as a value: the handles closed before the first
    [close] that raises, and that handle with its exception. *)
Fixpoint closing (docs : list (Path * (nat * XdwDocument)))
  : list nat * option (nat * PyExc) :=
  match docs with
  | [] => ([], None)
  | (_, (h, d)) :: rest =>
    match close d with
    | None => (h :: (closing rest).1, (closing rest).2)
    | Some e => ([], Some (h, e))
    end
  end.

Definition closing_events (c : list nat * option (nat * PyExc)) : list Event :=
  (EvXdwClose <$> c.1)
  ++ match c.2 with Some (h, _) => [EvXdwCloseFailed h] | None => [] end.

Definition set_events (s : MergeState) (evs : list Event) : MergeState :=
  {| temp_dir := temp_dir s; frames := frames s; xdw_docs := xdw_docs s;
     next_handle := next_handle s; events := evs |}.

(** The state on entry to the [with] block of a fresh call. *)
Definition entered : MergeState :=
  {| temp_dir := Some ∅; frames := []; xdw_docs := []; next_handle := 0;
     events := [EvMkdtemp] |}.

(** Exchanging positions [i] and [j]. *)
Definition transpose (i j k : nat) : nat :=
  if decide (k = i) then j else if decide (k = j) then i else k.

End Program.

(** ** A path flavour for closed examples

    Paths as already-normalised strings with ['/'] between components,
    compared as strings; [name], [suffix] and [with_suffix] follow
    [pathlib.PurePosixPath]. *)
Module StrPath.

Fixpoint str_name_from (acc s : string) : string :=
  match s with
  | EmptyString => acc
  | String c rest =>
    if Ascii.eqb c "/" then str_name_from EmptyString rest
    else str_name_from (acc +:+ String c EmptyString) rest
  end.

(** The path ["."] has no components, hence the empty name. *)
Definition str_name (s : string) : string :=
  if String.eqb s "." then EmptyString else str_name_from EmptyString s.

(** [str.rfind] of one character. *)
Fixpoint rfind (c : ascii) (s : string) : option nat :=
  match s with
  | EmptyString => None
  | String a rest =>
    match rfind c rest with
    | Some i => Some (S i)
    | None => if Ascii.eqb a c then Some O else None
    end
  end.

Definition str_suffix (s : string) : string :=
  let name := str_name s in
  match rfind "." name with
  | Some i =>
    if (Nat.ltb 0 i && Nat.ltb i (String.length name - 1))%bool
    then substring i (String.length name - i) name
    else EmptyString
  | None => EmptyString
  end.

Definition str_with_suffix (s suffix : string) : result string :=
  if String.eqb (str_name s) EmptyString then Raise (LibraryError "ValueError")
  else Ok (substring 0 (String.length s - String.length (str_suffix s)) s +:+ suffix).

Global Instance str_path : PurePath string := {|
  Path_of_str := λ s, if String.eqb s EmptyString then "." else s;
  path_name := str_name;
  path_suffix := str_suffix;
  with_suffix := str_with_suffix;
|}.

End StrPath.

(** ** Closed inputs for the examples *)
Module Examples.
Import StrPath.

Definition gray (v : Z) : Image := {| mode := "L"; img_size := (1, 1); im := [v] |}.

(** A three-frame raster file. *)
Definition three_frames : ImageFile :=
  {| n_frames := Some 3; seek_copy := λ i, Ok (gray i); copy := Ok (gray 0) |}.

(** A rendered page: one frame holding the bytes that were written. *)
Definition rendered (written : bytes) : ImageFile :=
  {| n_frames := Some 1;
     seek_copy := λ _, Ok {| mode := "RGB"; img_size := (2, 2); im := written |};
     copy := Ok {| mode := "RGB"; img_size := (2, 2); im := written |} |}.

Definition two_pages (close_outcome : option PyExc) : XdwDocument :=
  {| pages := 2; export_image := λ i, Ok [100 + i]; close := close_outcome |}.

(** [docA.tiff] has three frames; [docB.xdw] and [docC.xdw] have two
    pages each; nothing else can be opened. *)
Definition env_ok : Env (Path := string) :=
  {| Image_open := λ p, if String.eqb p "docA.tiff" then Ok three_frames
                        else Raise (LibraryError "cannot identify image file");
     Image_open_bytes := λ b, Ok (rendered b);
     xdwopen := λ p, if String.eqb p "docB.xdw" then Ok (two_pages None)
                     else if String.eqb p "docC.xdw" then Ok (two_pages None)
                     else Raise (LibraryError "cannot open document");
     convert_1 := λ img, Ok (im img);
     Image_save := λ _ _ _ _, None;
     getSaveFileName := "merged_output.tif" |}.

(** The same world, except that closing [docB.xdw] raises. *)
Definition env_close_fails : Env (Path := string) :=
  {| Image_open := Image_open env_ok;
     Image_open_bytes := Image_open_bytes env_ok;
     xdwopen := λ p, if String.eqb p "docB.xdw"
                     then Ok (two_pages (Some (LibraryError "close failed")))
                     else xdwopen env_ok p;
     convert_1 := convert_1 env_ok;
     Image_save := Image_save env_ok;
     getSaveFileName := getSaveFileName env_ok |}.

(** The same world as [env_ok], except that closing [docC.xdw] raises. *)
Definition env_docC_close_fails : Env (Path := string) :=
  {| Image_open := Image_open env_ok;
     Image_open_bytes := Image_open_bytes env_ok;
     xdwopen := λ p, if String.eqb p "docC.xdw"
                     then Ok (two_pages (Some (LibraryError "close failed")))
                     else xdwopen env_ok p;
     convert_1 := convert_1 env_ok;
     Image_save := Image_save env_ok;
     getSaveFileName := getSaveFileName env_ok |}.

Definition entry (p : string) (i : Z) (ty : string) : PageEntry :=
  {| source_path := p; page_index := i; source_type := ty |}.

(** The catalog of the specification's example. *)
Definition catalog_example : list PageEntry :=
  [entry "docA.tiff" 0 "tiff"; entry "docB.xdw" 1 "docuworks";
   entry "docA.tiff" 1 "tiff"].

(** Two documents, then a raster page that does not exist. *)
Definition catalog_stale : list PageEntry :=
  [entry "docB.xdw" 0 "docuworks"; entry "docC.xdw" 0 "docuworks";
   entry "docA.tiff" 7 "tiff"].

(** A document, a raster page that does not exist, and a document that
    the merge never gets to. *)
Definition catalog_fails_early : list PageEntry :=
  [entry "docB.xdw" 0 "docuworks"; entry "docA.tiff" 7 "tiff";
   entry "docC.xdw" 0 "docuworks"].

Definition catalog_two_docs : list PageEntry :=
  [entry "docB.xdw" 0 "docuworks"; entry "docC.xdw" 1 "docuworks";
   entry "docB.xdw" 1 "docuworks"].

Definition empty_list : QListWidget (Path := string) :=
  {| items := []; currentRow := -1 |}.

Definition three_rows : QListWidget (Path := string) :=
  {| items := [new_item "docA.tiff" "tiff" 0; new_item "docA.tiff" "tiff" 1;
               new_item "docA.tiff" "tiff" 2];
     currentRow := 1 |}.

(** The same rows with none of them current. *)
Definition three_rows_unselected : QListWidget (Path := string) :=
  {| items := items three_rows; currentRow := -1 |}.

End Examples.

(** ** Drag and drop *)

(** A [QUrl] and a [QMimeData], as far as the program looks at them. *)
Record QUrl : Type := {
  isLocalFile : bool;
  toLocalFile : string;
}.

Record QMimeData : Type := {
  hasUrls : bool;
  urls : list QUrl;
}.

Section DragAndDrop.
Context {Path : Type} `{PurePath Path}.

(** [is_file] is [Path.is_file] on the file system of the moment. *)
Definition extract_supported_paths_from_mime (is_file : Path → bool)
    (mime_data : QMimeData) : list Path :=
  if negb (hasUrls mime_data) then []
  else
    foldl (λ paths url,
             if negb (isLocalFile url) then paths
             else
               let path := Path_of_str (toLocalFile url) in
               if negb (is_file path) then paths
               else if decide (lower (path_suffix path) ∈ SUPPORTED_EXTENSIONS)
                    then paths ++ [path]
                    else paths)
          [] (urls mime_data).

(** The drag events answer with [true] for [acceptProposedAction] and
    [false] for [ignore]; the list widget and the main window have the
    same handlers. *)
Definition dragEnterEvent (is_file : Path → bool) (mime_data : QMimeData) : bool :=
  match extract_supported_paths_from_mime is_file mime_data with
  | [] => false
  | _ :: _ => true
  end.

Definition dragMoveEvent (is_file : Path → bool) (mime_data : QMimeData) : bool :=
  match extract_supported_paths_from_mime is_file mime_data with
  | [] => false
  | _ :: _ => true
  end.

(** [dropEvent]: the main window calls [add_files]; the list widget emits
    [files_dropped], which is connected to [add_files]. *)
Definition dropEvent (env : Env) (is_file : Path → bool) (mime_data : QMimeData)
    (page_list : QListWidget) : bool * (QListWidget * list Dialog) :=
  match extract_supported_paths_from_mime is_file mime_data with
  | [] => (false, (page_list, []))
  | paths => (true, add_files env paths page_list)
  end.

(** ** More to read off traces and rows *)

(** The names of the artifacts written into the temporary directory. *)
Definition exports (evs : list (Event (Path := Path))) : list string :=
  omap (λ ev, match ev with EvExportImage _ _ name => Some name | _ => None end) evs.

(** A row as [add_files] makes them: the text is the label of the entry,
    the page index is not negative, and the source type is the one that
    goes with the extension of the path. *)
Definition row_ok (item : QListWidgetItem (Path := Path)) : Prop :=
  text item = label (data item) ∧
  0 ≤ page_index (data item) ∧
  ((source_type (data item) = "tiff" ∧
    lower (path_suffix (source_path (data item))) ∈ TIFF_EXTENSIONS) ∨
   (source_type (data item) = "docuworks" ∧
    lower (path_suffix (source_path (data item))) ∈ DOCUWORKS_EXTENSIONS)).

(** The current row is [-1] or the index of a row. *)
Definition selection_ok (page_list : QListWidget (Path := Path)) : Prop :=
  -1 ≤ currentRow page_list < count page_list.

End DragAndDrop.

(** Dropping the zeros a string starts with. *)
Fixpoint lstrip_zeros (s : string) : string :=
  match s with
  | String c rest => if Ascii.eqb c "0" then lstrip_zeros rest else s
  | EmptyString => EmptyString
  end.

Module DropExamples.
Import StrPath.

Definition local (p : string) : QUrl := {| isLocalFile := true; toLocalFile := p |}.

(** A drop of two files, a web link and a folder. *)
Definition dropped : QMimeData :=
  {| hasUrls := true;
     urls := [local "docA.tiff"; {| isLocalFile := false; toLocalFile := EmptyString |};
              local "scans"; local "notes.pdf"; local "docB.xdw"] |}.

(** The same file dropped twice, with another one in between. *)
Definition dropped_twice : QMimeData :=
  {| hasUrls := true;
     urls := [local "docA.tiff"; local "docB.xdw"; local "docA.tiff"] |}.

Definition on_disk (p : string) : bool :=
  bool_decide (p ∈ ["docA.tiff"; "notes.pdf"; "docB.xdw"]).

Definition four_rows : QListWidget (Path := string) :=
  {| items := [new_item "docA.tiff" "tiff" 0; new_item "docA.tiff" "tiff" 1;
               new_item "docB.xdw" "docuworks" 0; new_item "docA.tiff" "tiff" 2];
     currentRow := 2 |}.

(** A catalog of raster pages only. *)
Definition catalog_raster : list PageEntry :=
  [Examples.entry "docA.tiff" 2 "tiff"; Examples.entry "docA.tiff" 0 "tiff"].

End DropExamples.

(** * Proofs *)

(** ** Reordering the catalog *)
Section Moves.
Context {Path : Type} `{PurePath Path}.

Lemma lookup_transposed {A} (l1 l2 : list A) a b k :
  (l1 ++ b :: a :: l2) !! k
  = (l1 ++ a :: b :: l2) !! transpose (length l1) (S (length l1)) k.
Proof.
  unfold transpose.
  destruct (decide (k = length l1)) as [->|Hk1].
  - rewrite !list_lookup_middle by lia.
    rewrite (lookup_app_r _ _ (S (length l1))) by lia.
    replace (S (length l1) - length l1)%nat with 1%nat by lia. done.
  - destruct (decide (k = S (length l1))) as [->|Hk2].
    + rewrite (list_lookup_middle _ _ a (length l1)) by lia.
      rewrite lookup_app_r by lia.
      replace (S (length l1) - length l1)%nat with 1%nat by lia. done.
    + destruct (decide (k < length l1)%nat).
      * by rewrite !lookup_app_l by lia.
      * rewrite !lookup_app_r by lia.
        destruct (k - length l1)%nat as [|[|m]] eqn:E; [lia|lia|done].
Qed.

Lemma takeItem_split (l1 : list (@QListWidgetItem Path)) a l2 cur :
  ∃ cur', takeItem (Z.of_nat (length l1)) {| items := l1 ++ a :: l2; currentRow := cur |}
          = (Some a, {| items := l1 ++ l2; currentRow := cur' |}).
Proof.
  unfold takeItem, count. cbn [items currentRow].
  rewrite length_app, Nat2Z.id, delete_middle, list_lookup_middle by done.
  cbn [length].
  destruct (Z.leb_spec 0 (Z.of_nat (length l1))); [|lia].
  destruct (Z.ltb_spec (Z.of_nat (length l1)) (Z.of_nat (length l1 + S (length l2))));
    [|lia].
  cbn [andb]. eauto.
Qed.

Lemma insertItem_split (l1 : list (@QListWidgetItem Path)) it l2 cur :
  ∃ cur', insertItem (Z.of_nat (length l1)) (Some it)
            {| items := l1 ++ l2; currentRow := cur |}
          = {| items := l1 ++ it :: l2; currentRow := cur' |}.
Proof.
  unfold insertItem, count. cbn [items currentRow]. rewrite length_app.
  destruct (Z.ltb_spec (Z.of_nat (length l1)) 0); [lia|].
  destruct (Z.ltb_spec (Z.of_nat (length l1 + length l2)) (Z.of_nat (length l1)));
    [lia|].
  rewrite Nat2Z.id, take_app_length, drop_app_length. eauto.
Qed.

Lemma setCurrentRow_split (l1 : list (@QListWidgetItem Path)) it l2 cur :
  setCurrentRow (Z.of_nat (length l1)) {| items := l1 ++ it :: l2; currentRow := cur |}
  = {| items := l1 ++ it :: l2; currentRow := Z.of_nat (length l1) |}.
Proof.
  unfold setCurrentRow, count. cbn [items]. rewrite length_app. cbn [length].
  destruct (Z.leb_spec 0 (Z.of_nat (length l1))); [|lia].
  destruct (Z.ltb_spec (Z.of_nat (length l1)) (Z.of_nat (length l1 + S (length l2))));
    [|lia].
  done.
Qed.

Lemma move_selected_up_split (l1 : list (@QListWidgetItem Path)) a b l2 cur :
  cur = Z.of_nat (S (length l1)) →
  move_selected_up {| items := l1 ++ a :: b :: l2; currentRow := cur |}
  = {| items := l1 ++ b :: a :: l2; currentRow := Z.of_nat (length l1) |}.
Proof.
  intros ->. unfold move_selected_up. cbn [currentRow].
  destruct (Z.leb_spec (Z.of_nat (S (length l1))) 0); [lia|].
  destruct (takeItem_split (l1 ++ [a]) b l2 (Z.of_nat (S (length l1)))) as [c1 Ht].
  rewrite length_app, <- !(assoc_L (++)) in Ht. cbn [length app] in Ht.
  replace (length l1 + 1)%nat with (S (length l1)) in Ht by lia. rewrite Ht.
  replace (Z.of_nat (S (length l1)) - 1) with (Z.of_nat (length l1)) by lia.
  destruct (insertItem_split l1 b (a :: l2) c1) as [c2 ->].
  apply setCurrentRow_split.
Qed.

Lemma move_selected_down_split (l1 : list (@QListWidgetItem Path)) a b l2 cur :
  cur = Z.of_nat (length l1) →
  move_selected_down {| items := l1 ++ a :: b :: l2; currentRow := cur |}
  = {| items := l1 ++ b :: a :: l2; currentRow := Z.of_nat (S (length l1)) |}.
Proof.
  intros ->. unfold move_selected_down. cbn [currentRow]. unfold count at 1.
  cbn [items]. rewrite length_app. cbn [length].
  destruct (Z.ltb_spec (Z.of_nat (length l1)) 0); [lia|].
  destruct (Z.leb_spec (Z.of_nat (length l1 + S (S (length l2))) - 1)
              (Z.of_nat (length l1))); [lia|].
  cbn [orb].
  destruct (takeItem_split l1 a (b :: l2) (Z.of_nat (length l1))) as [c1 ->].
  destruct (insertItem_split (l1 ++ [b]) a l2 c1) as [c2 Hi].
  rewrite length_app, <- !(assoc_L (++)) in Hi. cbn [length app] in Hi.
  replace (Z.of_nat (length l1 + 1)) with (Z.of_nat (length l1) + 1) in Hi by lia.
  rewrite Hi.
  pose proof (setCurrentRow_split (l1 ++ [b]) a l2 c2) as Hs.
  rewrite length_app, <- !(assoc_L (++)) in Hs. cbn [length app] in Hs.
  replace (Z.of_nat (length l1 + 1)) with (Z.of_nat (length l1) + 1) in Hs by lia.
  rewrite Hs. f_equal. lia.
Qed.

Lemma split_two {A} (l : list A) (i : nat) :
  (S i < length l)%nat →
  ∃ l1 a b l2, l = l1 ++ a :: b :: l2 ∧ length l1 = i.
Proof.
  intros Hi.
  destruct (lookup_lt_is_Some_2 l i) as [a Ha]; [lia|].
  destruct (lookup_lt_is_Some_2 l (S i)) as [b Hb]; [lia|].
  exists (take i l), a, b, (drop (S (S i)) l). split.
  - rewrite <- (take_drop_middle l i a Ha) at 1. do 2 f_equal.
    apply drop_S. done.
  - rewrite length_take. lia.
Qed.

(** C10.  With no entry selected (current row [-1]) both moves return
    the list widget as it was: same rows, same current row. *)
Theorem move_without_selection_is_noop (page_list : QListWidget (Path := Path)) :
  currentRow page_list = -1 →
  move_selected_up page_list = page_list ∧
  move_selected_down page_list = page_list.
Proof.
  intros Hrow. unfold move_selected_up, move_selected_down. rewrite Hrow.
  by split.
Qed.

(** C5.  With an entry selected: moving up at row 0 and moving down at
    the last row change nothing; any other move exchanges the selected
    row with its neighbour in the direction of the move, leaves every
    other row where it was, and makes the moved row the current one. *)
Theorem move_swaps_adjacent (page_list : QListWidget (Path := Path)) :
  0 ≤ currentRow page_list < count page_list →
  let r := Z.to_nat (currentRow page_list) in
  (currentRow page_list = 0 → move_selected_up page_list = page_list) ∧
  (currentRow page_list = count page_list - 1 →
   move_selected_down page_list = page_list) ∧
  (0 < currentRow page_list →
   (∀ k, items (move_selected_up page_list) !! k
         = items page_list !! transpose (r - 1) r k) ∧
   currentRow (move_selected_up page_list) = currentRow page_list - 1 ∧
   items (move_selected_up page_list) !! (r - 1)%nat = items page_list !! r) ∧
  (currentRow page_list < count page_list - 1 →
   (∀ k, items (move_selected_down page_list) !! k
         = items page_list !! transpose r (r + 1) k) ∧
   currentRow (move_selected_down page_list) = currentRow page_list + 1 ∧
   items (move_selected_down page_list) !! (r + 1)%nat = items page_list !! r).
Proof.
  destruct page_list as [l cur]. intros Hsel r.
  unfold count in *. cbn [items currentRow] in *.
  split; [|split; [|split]].
  - intros ->. done.
  - intros Hlast. unfold move_selected_down, count. cbn [items currentRow].
    destruct (Z.ltb_spec cur 0); [lia|].
    destruct (Z.leb_spec (Z.of_nat (length l) - 1) cur); [done|lia].
  - intros Hpos.
    destruct (split_two l (r - 1)) as (l1 & a & b & l2 & -> & Hl1); [lia|].
    rewrite move_selected_up_split by lia. cbn [items currentRow].
    split; [|split].
    + intros k. rewrite lookup_transposed. do 2 f_equal; lia.
    + lia.
    + rewrite <- Hl1, list_lookup_middle by done.
      replace r with (S (length l1)) by lia.
      rewrite lookup_app_r by lia.
      by replace (S (length l1) - length l1)%nat with 1%nat by lia.
  - intros Hlt.
    destruct (split_two l r) as (l1 & a & b & l2 & -> & Hl1);
      [lia|].
    rewrite move_selected_down_split by lia. cbn [items currentRow].
    split; [|split].
    + intros k. rewrite lookup_transposed. do 2 f_equal; lia.
    + lia.
    + rewrite <- Hl1, (list_lookup_middle l1 _ a (length l1)) by done.
      rewrite lookup_app_r by lia.
      by replace (length l1 + 1 - length l1)%nat with 1%nat by lia.
Qed.

End Moves.

Lemma move_without_selection_is_noop_witness :
  length (items Examples.three_rows_unselected) = 3%nat ∧
  currentRow Examples.three_rows_unselected = -1 ∧
  move_selected_up Examples.three_rows_unselected
  = Examples.three_rows_unselected ∧
  move_selected_down Examples.three_rows_unselected
  = Examples.three_rows_unselected.
Proof.
  split; [reflexivity|]. split; [reflexivity|].
  apply (move_without_selection_is_noop Examples.three_rows_unselected).
  reflexivity.
Defined.

Lemma move_swaps_adjacent_witness :
  0 ≤ currentRow Examples.three_rows < count Examples.three_rows ∧
  text <$> items (move_selected_up Examples.three_rows)
  = ["docA.tiff-p002"; "docA.tiff-p001"; "docA.tiff-p003"] ∧
  currentRow (move_selected_up Examples.three_rows) = 0.
Proof.
  assert (Hsel : 0 ≤ currentRow Examples.three_rows < count Examples.three_rows)
    by (unfold count; cbn; lia).
  split; [exact Hsel|].
  pose proof (move_swaps_adjacent Examples.three_rows Hsel) as (_ & _ & Hup & _).
  split; [reflexivity|]. apply Hup. reflexivity.
Defined.

(** ** Batch import *)
Section AddFiles.
Context {Path : Type} `{PurePath Path}.
Implicit Types (env : Env (Path := Path)) (path : Path) (paths : list Path).

Lemma try_page_count_supported env path :
  supported path ↔ is_Some (try_page_count env path).
Proof.
  unfold supported, try_page_count, SUPPORTED_EXTENSIONS.
  rewrite elem_of_union.
  repeat case_decide; split; intros; try (by eexists); try tauto.
  by destruct (is_Some_None (A := result Z * string)).
Qed.

Lemma foldl_addItem path source_type (l : list Z) (w : QListWidget (Path := Path)) :
  foldl (λ w page_index, addItem (new_item path source_type page_index) w) w l
  = {| items := items w ++ (new_item path source_type <$> l);
       currentRow := currentRow w |}.
Proof.
  revert w. induction l as [|i l IH]; intros w; cbn.
  - rewrite app_nil_r. by destruct w.
  - rewrite IH. unfold addItem. cbn. by rewrite <- (assoc_L (++)).
Qed.

Lemma add_files_step_eq env path (w : QListWidget (Path := Path)) errors :
  add_files_step env path (w, errors)
  = ({| items := items w ++ rows_of env path; currentRow := currentRow w |},
     errors ++ option_list (error_of env path)).
Proof.
  unfold add_files_step, rows_of, error_of.
  destruct (try_page_count env path) as [[[n|e] ty]|]; cbn.
  - by rewrite foldl_addItem, app_nil_r.
  - rewrite app_nil_r. by destruct w.
  - rewrite !app_nil_r. by destruct w.
Qed.

Lemma add_files_loop_eq env paths (w : QListWidget (Path := Path)) errors :
  foldl (λ st path, add_files_step env path st) (w, errors) paths
  = ({| items := items w ++ concat (rows_of env <$> paths);
        currentRow := currentRow w |},
     errors ++ omap (error_of env) paths).
Proof.
  revert w errors.
  induction paths as [|path paths IH]; intros w errors; cbn [foldl].
  - cbn. rewrite !app_nil_r. by destruct w.
  - rewrite add_files_step_eq, IH. cbn [items currentRow].
    rewrite fmap_cons, concat_cons, <- !(assoc_L (++)). do 2 f_equal.
    cbn. by destruct (error_of env path).
Qed.

Lemma add_files_eq env paths (w : QListWidget (Path := Path)) :
  add_files env paths w
  = ({| items := items w ++ concat (rows_of env <$> paths);
        currentRow := currentRow w |},
     match omap (error_of env) paths with
     | [] => []
     | _ :: _ => [QMessageBox_warning (omap (error_of env) paths)]
     end).
Proof. unfold add_files. by rewrite add_files_loop_eq. Qed.

Lemma unsupported_contributes_nothing env path :
  ¬ supported path → rows_of env path = [] ∧ error_of env path = None.
Proof.
  rewrite (try_page_count_supported env), <- eq_None_not_Some.
  unfold rows_of, error_of. by intros ->.
Qed.

Lemma rows_of_filter_supported env paths :
  concat (rows_of env <$> filter supported paths) = concat (rows_of env <$> paths).
Proof.
  induction paths as [|path paths IH]; [done|].
  rewrite filter_cons. case_decide as Hs; cbn; [by rewrite IH|].
  destruct (unsupported_contributes_nothing env path Hs) as [-> _]. done.
Qed.

Lemma errors_of_filter_supported env paths :
  omap (error_of env) (filter supported paths) = omap (error_of env) paths.
Proof.
  induction paths as [|path paths IH]; [done|].
  rewrite filter_cons. case_decide as Hs; cbn; [by rewrite IH|].
  destruct (unsupported_contributes_nothing env path Hs) as [_ ->]. done.
Qed.

Lemma errors_count env paths :
  length (omap (error_of env) paths) = length (filter (fails_to_count env) paths).
Proof.
  induction paths as [|path paths IH]; [done|].
  rewrite filter_cons. cbn [omap list_omap].
  case_decide as Hd.
  - destruct Hd as [err ->]. cbn. by rewrite IH.
  - apply eq_None_not_Some in Hd. by rewrite Hd.
Qed.

(** C3 (amended).  [add_files] skips a path whose extension is neither a
    raster-container nor a compound-document extension without a trace:
    the batch gives the same rows and the same report as the batch with
    those paths taken out, and such a path alone adds no row and shows no
    message.  The remaining paths are processed as usual. *)
Theorem add_files_skips_unsupported env paths (page_list : QListWidget (Path := Path)) :
  add_files env paths page_list
  = add_files env (filter supported paths) page_list ∧
  ∀ path, ¬ supported path →
          add_files env [path] page_list = (page_list, []).
Proof.
  split.
  - by rewrite !add_files_eq, rows_of_filter_supported, errors_of_filter_supported.
  - intros path Hs. rewrite add_files_eq. cbn.
    destruct (unsupported_contributes_nothing env path Hs) as [-> ->].
    cbn. rewrite app_nil_r. by destruct page_list.
Qed.

(** C7.  For a batch of supported files, [M] of which fail when their
    page count is determined: every other file contributes one row per
    page, in page order, the rows of the files follow the order of the
    batch, and the [M] errors, one per failed file, are shown in one
    warning (no message at all when [M = 0]). *)
Theorem add_files_partial_failure env paths (page_list : QListWidget (Path := Path)) :
  Forall supported paths →
  let M := length (filter (fails_to_count env) paths) in
  let errors := omap (error_of env) paths in
  items (add_files env paths page_list).1
  = items page_list ++ concat (rows_of env <$> paths) ∧
  Forall (λ path,
            (fails_to_count env path ∧ rows_of env path = []) ∨
            (¬ fails_to_count env path ∧
             ∃ page_count source_type,
               try_page_count env path = Some (Ok page_count, source_type) ∧
               rows_of env path = new_item path source_type <$> range page_count))
         paths ∧
  length errors = M ∧
  (add_files env paths page_list).2
  = (if decide (M = 0%nat) then [] else [QMessageBox_warning errors]).
Proof.
  intros Hsup M errors. rewrite add_files_eq. cbn [fst snd items].
  split; [done|]. split; [|split].
  - eapply Forall_impl; [exact Hsup|]. intros path Hs.
    apply (try_page_count_supported env) in Hs as [[[n|e] ty] Hc].
    + right. unfold fails_to_count, error_of, rows_of. rewrite Hc.
      split; [by intros [? ?]|]. by exists n, ty.
    + left. unfold fails_to_count, error_of, rows_of. rewrite Hc.
      split; [by eexists|done].
  - apply errors_count.
  - pose proof (errors_count env paths) as Hlen. fold errors M in Hlen.
    fold errors. destruct errors; case_decide; cbn in Hlen; try done; lia.
Qed.

End AddFiles.

Lemma add_files_unsupported_counterexample :
  ¬ supported (Path := string) "notes.pdf" ∧
  add_files Examples.env_ok ["notes.pdf"] Examples.empty_list
  = (Examples.empty_list, []).
Proof. split; [vm_compute; by intros ?|reflexivity]. Qed.

Lemma add_files_skips_unsupported_witness :
  ¬ supported (Path := string) "scan/photo.JPEG" ∧
  add_files Examples.env_ok ["scan/photo.JPEG"] Examples.three_rows
  = (Examples.three_rows, []).
Proof.
  assert (Hs : ¬ supported (Path := string) "scan/photo.JPEG")
    by (vm_compute; by intros ?).
  split; [exact Hs|].
  apply (add_files_skips_unsupported Examples.env_ok [] Examples.three_rows).
  exact Hs.
Defined.

Lemma add_files_partial_failure_witness :
  Forall (supported (Path := string)) ["docA.tiff"; "missing.tif"; "docB.xdw"] ∧
  (text <$> items (add_files Examples.env_ok ["docA.tiff"; "missing.tif"; "docB.xdw"]
                             Examples.empty_list).1)
  = ["docA.tiff-p001"; "docA.tiff-p002"; "docA.tiff-p003";
     "docB.xdw-p001"; "docB.xdw-p002"] ∧
  (add_files Examples.env_ok ["docA.tiff"; "missing.tif"; "docB.xdw"]
             Examples.empty_list).2
  = [QMessageBox_warning
       [("missing.tif", LibraryError "cannot identify image file")]].
Proof.
  assert (Hs : Forall (supported (Path := string))
                 ["docA.tiff"; "missing.tif"; "docB.xdw"]).
  { repeat constructor; by vm_compute. }
  split; [exact Hs|].
  pose proof (add_files_partial_failure Examples.env_ok _ Examples.empty_list Hs)
    as (Hrows & _ & _ & Hmsg).
  split; [by rewrite Hrows|exact Hmsg].
Defined.

(** ** The merge pipeline *)
Section Merge.
Context {Path : Type} `{PurePath Path}.
Implicit Types (env : Env (Path := Path)) (s : MergeState (Path := Path))
  (entry : PageEntry (Path := Path)) (entries : list (PageEntry (Path := Path)))
  (docs : list (Path * (nat * XdwDocument))) (evs : list (Event (Path := Path))).

(** *** The cache *)

Lemma dict_get_None {V} (key : Path) (d : list (Path * V)) :
  dict_get key d = None ↔ key ∉ fst <$> d.
Proof.
  induction d as [|[k v] d IH]; cbn.
  - split; [intros _; apply not_elem_of_nil|done].
  - rewrite not_elem_of_cons. case_decide as Hk; [|rewrite IH]; cbn.
    + split; [done|]. by intros [? _].
    + split; [by split|]. by intros [_ ?].
Qed.

Lemma dict_get_Some {V} (key : Path) (d : list (Path * V)) v :
  dict_get key d = Some v → (key, v) ∈ d.
Proof.
  induction d as [|[k w] d IH]; cbn; [done|].
  case_decide as Hk.
  - intros [= ->]. subst. apply elem_of_cons. by left.
  - intros Hd. apply elem_of_cons. right. auto.
Qed.

Lemma dict_get_snoc {V} (key : Path) (d : list (Path * V)) v :
  dict_get key d = None → dict_get key (d ++ [(key, v)]) = Some v.
Proof.
  induction d as [|[k w] d IH]; cbn.
  - intros _. by case_decide.
  - case_decide; [done|auto].
Qed.

(** *** Observing traces *)

Lemma opened_app evs1 evs2 : opened (evs1 ++ evs2) = opened evs1 ++ opened evs2.
Proof. apply omap_app. Qed.
Lemma close_calls_app evs1 evs2 :
  close_calls (evs1 ++ evs2) = close_calls evs1 ++ close_calls evs2.
Proof. apply omap_app. Qed.
Lemma closed_app evs1 evs2 : closed (evs1 ++ evs2) = closed evs1 ++ closed evs2.
Proof. apply omap_app. Qed.
Lemma close_failures_app evs1 evs2 :
  close_failures (evs1 ++ evs2) = close_failures evs1 ++ close_failures evs2.
Proof. apply omap_app. Qed.
Lemma saves_app evs1 evs2 : saves (evs1 ++ evs2) = saves evs1 ++ saves evs2.
Proof. apply omap_app. Qed.

Lemma closed_close_calls evs : close_calls evs = [] → closed evs = [].
Proof. induction evs as [|[] evs IH]; cbn; done || auto. Qed.

Lemma close_failures_close_calls evs :
  close_calls evs = [] → close_failures evs = [].
Proof. induction evs as [|[] evs IH]; cbn; done || auto. Qed.

Lemma saves_no_output evs :
  Forall (λ ev, writes_output ev = false) evs → saves evs = [].
Proof.
  induction 1 as [|[] evs Hev _ IH]; cbn in *; try done; auto.
Qed.

(** *** Rendering one page of a compound document *)

(** With the document in the cache nothing is opened: the cached object
    renders the page into the directory and the artifact is read back. *)
Lemma convert_docuworks_page_cached env entry order s handle d dir :
  dict_get (source_path entry) (xdw_docs s) = Some (handle, d) →
  temp_dir s = Some dir →
  convert_docuworks_page env entry order s
  = match export_image d (page_index entry) with
    | Raise e => (Raise e, s)
    | Ok written =>
      (match Image_open_bytes env written with
       | Raise e => Raise e
       | Ok img => copy img
       end,
       {| temp_dir := Some (<[temp_tiff_name order := written]> dir);
          frames := frames s; xdw_docs := xdw_docs s;
          next_handle := next_handle s;
          events := events s
                    ++ [EvExportImage handle (page_index entry)
                                      (temp_tiff_name order)] |})
    end.
Proof.
  intros Hget Hdir. unfold convert_docuworks_page. rewrite Hget.
  destruct (export_image d (page_index entry)) as [written|e]; [|done].
  rewrite Hdir. cbn. rewrite lookup_insert_eq.
  by destruct (Image_open_bytes env written).
Qed.

(** With the document missing from the cache it is opened first, and the
    page is then rendered as from a cache that holds it. *)
Lemma convert_docuworks_page_open env entry order s d :
  dict_get (source_path entry) (xdw_docs s) = None →
  xdwopen env (source_path entry) = Ok d →
  convert_docuworks_page env entry order s
  = convert_docuworks_page env entry order
      {| temp_dir := temp_dir s; frames := frames s;
         xdw_docs := xdw_docs s ++ [(source_path entry, (next_handle s, d))];
         next_handle := S (next_handle s);
         events := events s ++ [EvXdwOpen (source_path entry) (next_handle s)] |}.
Proof.
  intros Hget Hopen. unfold convert_docuworks_page at 2. cbn [xdw_docs].
  rewrite (dict_get_snoc _ _ _ Hget).
  unfold convert_docuworks_page. by rewrite Hget, Hopen.
Qed.

Lemma convert_docuworks_page_unopened env entry order s e :
  dict_get (source_path entry) (xdw_docs s) = None →
  xdwopen env (source_path entry) = Raise e →
  convert_docuworks_page env entry order s = (Raise e, s).
Proof.
  intros Hget Hopen. unfold convert_docuworks_page. by rewrite Hget, Hopen.
Qed.

Lemma cache_inv_open n0 env s path d :
  cache_inv n0 env s →
  dict_get path (xdw_docs s) = None →
  xdwopen env path = Ok d →
  cache_inv n0 env
    {| temp_dir := temp_dir s; frames := frames s;
       xdw_docs := xdw_docs s ++ [(path, (next_handle s, d))];
       next_handle := S (next_handle s);
       events := events s ++ [EvXdwOpen path (next_handle s)] |}.
Proof.
  intros [Ht Hd Hn Hh Hx Ho Hc Hw] Hget Hopen.
  split; cbn [temp_dir frames xdw_docs next_handle events].
  - done.
  - apply Forall_app. split; [done|]. by constructor.
  - rewrite fmap_app. apply NoDup_app. split; [done|]. split.
    + intros p Hp. cbn. rewrite list_elem_of_singleton. intros ->.
      by apply dict_get_None in Hget.
    + apply NoDup_singleton.
  - rewrite fmap_app, length_app, Hh. cbn [length].
    rewrite Nat.add_1_r, seq_S. by rewrite Hx.
  - rewrite length_app. cbn. lia.
  - rewrite opened_app, fmap_app, Ho. done.
  - rewrite close_calls_app, Hc. done.
  - apply Forall_app. split; [done|]. by constructor.
Qed.

Lemma cache_inv_export n0 env s dir handle page name :
  cache_inv n0 env s →
  cache_inv n0 env
    {| temp_dir := Some dir; frames := frames s; xdw_docs := xdw_docs s;
       next_handle := next_handle s;
       events := events s ++ [EvExportImage handle page name] |}.
Proof.
  intros [Ht Hd Hn Hh Hx Ho Hc Hw].
  split; cbn [temp_dir frames xdw_docs next_handle events]; try done.
  - rewrite opened_app, Ho. cbn. by rewrite app_nil_r.
  - rewrite close_calls_app, Hc. done.
  - apply Forall_app. split; [done|]. by constructor.
Qed.

Lemma cache_inv_append n0 env s frame :
  cache_inv n0 env s →
  cache_inv n0 env
    {| temp_dir := temp_dir s; frames := frames s ++ [frame];
       xdw_docs := xdw_docs s; next_handle := next_handle s;
       events := events s |}.
Proof. by intros []. Qed.

Lemma docuworks_cached_spec n0 env entry order s handle d :
  cache_inv n0 env s →
  dict_get (source_path entry) (xdw_docs s) = Some (handle, d) →
  String.eqb (source_type entry) "tiff" = false →
  ∃ s1, convert_docuworks_page env entry order s
        = (spec_extract_frame env entry, s1) ∧
        cache_inv n0 env s1 ∧ frames s1 = frames s ∧ xdw_docs s1 = xdw_docs s.
Proof.
  intros Hinv Hget Htiff.
  destruct (inv_temp _ _ _ Hinv) as [dir Hdir].
  rewrite (convert_docuworks_page_cached _ _ _ _ _ _ _ Hget Hdir).
  assert (Hopen : xdwopen env (source_path entry) = Ok d).
  { pose proof (inv_docs _ _ _ Hinv) as Hall.
    rewrite Forall_forall in Hall. apply (Hall _ (dict_get_Some _ _ _ Hget)). }
  unfold spec_extract_frame. rewrite Htiff, Hopen.
  destruct (export_image d (page_index entry)) as [written|e].
  - eexists. split; [done|]. split; [|done]. by apply cache_inv_export.
  - by exists s.
Qed.

(** One page reference resolves to the frame [spec_extract_frame] gives
    for it; the cache grows by at most the entry's own document. *)
Lemma extract_spec n0 env entry order s :
  cache_inv n0 env s →
  ∃ s1, (if String.eqb (source_type entry) "tiff"
         then lift (load_tiff_page env (source_path entry) (page_index entry)) s
         else convert_docuworks_page env entry order s)
        = (spec_extract_frame env entry, s1) ∧
        cache_inv n0 env s1 ∧ frames s1 = frames s ∧
        (∀ p, p ∈ fst <$> xdw_docs s1 →
              p ∈ fst <$> xdw_docs s ∨
              (p = source_path entry ∧
               String.eqb (source_type entry) "tiff" = false)) ∧
        (∀ p, p ∈ fst <$> xdw_docs s → p ∈ fst <$> xdw_docs s1) ∧
        (is_Ok (spec_extract_frame env entry) = true →
         String.eqb (source_type entry) "tiff" = false →
         source_path entry ∈ fst <$> xdw_docs s1).
Proof.
  intros Hinv. destruct (String.eqb (source_type entry) "tiff") eqn:Htiff.
  - exists s. unfold spec_extract_frame, lift. rewrite Htiff.
    split_and!; auto. by intros _ [=].
  - destruct (dict_get (source_path entry) (xdw_docs s)) as [[handle d]|] eqn:Hget.
    + destruct (docuworks_cached_spec _ _ _ order _ _ _ Hinv Hget Htiff)
        as (s1 & -> & Hinv1 & Hfr & Hdocs).
      exists s1. rewrite Hdocs. split_and!; auto.
      intros _ _. apply (list_elem_of_fmap_2 fst _ _ (dict_get_Some _ _ _ Hget)).
    + destruct (xdwopen env (source_path entry)) as [d|e] eqn:Hopen.
      * rewrite (convert_docuworks_page_open _ _ _ _ _ Hget Hopen).
        pose proof (cache_inv_open _ _ _ _ _ Hinv Hget Hopen) as Hinv'.
        edestruct (docuworks_cached_spec n0 env entry order) as
          (s1 & -> & Hinv1 & Hfr & Hdocs); [exact Hinv'| |exact Htiff|].
        { cbn [xdw_docs]. by apply dict_get_snoc. }
        exists s1. rewrite Hdocs. cbn [xdw_docs frames] in *.
        rewrite fmap_app. cbn [fmap list_fmap fst].
        split_and!; auto.
        -- intros p [Hp|Hp%list_elem_of_singleton]%elem_of_app; auto.
        -- intros p Hp. apply elem_of_app. by left.
        -- intros _ _. apply elem_of_app. right. by apply list_elem_of_singleton.
      * rewrite (convert_docuworks_page_unopened _ _ _ _ _ Hget Hopen).
        exists s. unfold spec_extract_frame. rewrite Htiff, Hopen.
        split_and!; auto. intros [=].
Qed.

Lemma page_loop_cons env compression order entry entries s :
  page_loop env compression order (entry :: entries) s
  = match (if String.eqb (source_type entry) "tiff"
           then lift (load_tiff_page env (source_path entry) (page_index entry)) s
           else convert_docuworks_page env entry order s) with
    | (Raise e, s1) => (Raise e, s1)
    | (Ok frame, s1) =>
      match spec_normalize env compression frame with
      | Raise e => (Raise e, s1)
      | Ok frame' =>
        page_loop env compression (S order) entries
          {| temp_dir := temp_dir s1; frames := frames s1 ++ [frame'];
             xdw_docs := xdw_docs s1; next_handle := next_handle s1;
             events := events s1 |}
      end
    end.
Proof.
  cbn [page_loop]. unfold mbind, M_bind, bind, spec_normalize.
  destruct (String.eqb (source_type entry) "tiff");
    destruct (String.eqb compression "group4"); cbn;
    repeat (match goal with |- context [match ?x with _ => _ end] =>
              destruct x eqn:? end; cbn; try done).
Qed.

Lemma docuworks_paths_cons entry entries :
  docuworks_paths (entry :: entries)
  = if String.eqb (source_type entry) "tiff" then docuworks_paths entries
    else source_path entry :: docuworks_paths entries.
Proof.
  unfold docuworks_paths. rewrite filter_cons.
  destruct (String.eqb (source_type entry) "tiff"); by case_decide.
Qed.

(** *** The loop over the page references *)

(** The loop returns exactly when every page resolves, with the frames of
    [spec_pages] appended in order; otherwise it raises the exception of
    the first page that fails.  The cache ends with the documents it
    started with and documents of the entries. *)
Lemma page_loop_spec n0 env compression entries :
  ∀ order s,
    cache_inv n0 env s →
    ∃ r s', page_loop env compression order entries s = (r, s') ∧
            cache_inv n0 env s' ∧
            (∀ p, p ∈ fst <$> xdw_docs s' →
                  p ∈ fst <$> xdw_docs s ∨ p ∈ docuworks_paths entries) ∧
            (∀ p, p ∈ fst <$> xdw_docs s → p ∈ fst <$> xdw_docs s') ∧
            match spec_pages env compression entries with
            | Ok fs => r = Ok tt ∧ frames s' = frames s ++ fs ∧
                       (∀ p, p ∈ docuworks_paths entries → p ∈ fst <$> xdw_docs s')
            | Raise e => r = Raise e
            end.
Proof.
  induction entries as [|entry entries IH]; intros order s Hinv.
  - exists (Ok tt), s. cbn. rewrite app_nil_r. split_and!; auto.
    intros p Hp. by apply elem_of_nil in Hp.
  - rewrite page_loop_cons, docuworks_paths_cons.
    destruct (extract_spec _ _ entry order _ Hinv)
      as (s1 & -> & Hinv1 & Hfr & Hsub & Hmono & Hin).
    cbn [spec_pages]. unfold spec_page.
    destruct (spec_extract_frame env entry) as [frame|e].
    2:{ exists (Raise e), s1. split_and!; auto.
        intros p Hp. destruct (Hsub p Hp) as [?|[-> Ht]]; [by left|right].
        rewrite Ht. apply elem_of_cons. by left. }
    destruct (spec_normalize env compression frame) as [frame'|e].
    2:{ exists (Raise e), s1. split_and!; auto.
        intros p Hp. destruct (Hsub p Hp) as [?|[-> Ht]]; [by left|right].
        rewrite Ht. apply elem_of_cons. by left. }
    destruct (IH (S order) _ (cache_inv_append _ _ _ frame' Hinv1))
      as (r & s' & -> & Hinv' & Hsub' & Hmono' & Hres).
    cbn [xdw_docs frames] in *.
    exists r, s'. split_and!; auto.
    + intros p Hp. destruct (Hsub' p Hp) as [Hp1|Hp1].
      * destruct (Hsub p Hp1) as [?|[-> Ht]]; [by left|right].
        rewrite Ht. apply elem_of_cons. by left.
      * right. destruct (String.eqb (source_type entry) "tiff"); [done|].
        apply elem_of_cons. by right.
    + destruct (spec_pages env compression entries) as [fs|e]; [|done].
      destruct Hres as (-> & Hframes & Hall). split_and!; [done| |].
      * rewrite Hframes, Hfr, <- (assoc_L (++)). done.
      * intros p Hp.
        destruct (String.eqb (source_type entry) "tiff") eqn:Ht; [by apply Hall|].
        apply elem_of_cons in Hp as [->|Hp]; [|by apply Hall].
        apply Hmono'. by apply Hin.
Qed.

(** *** The [finally] clause *)

Lemma close_each_spec docs :
  ∀ s, close_each docs s
       = (match (closing docs).2 with
          | None => Ok tt
          | Some (_, e) => Raise e
          end,
          set_events s (events s ++ closing_events (closing docs))).
Proof.
  induction docs as [|[p [h d]] docs IH]; intros s.
  - cbn. unfold ret, set_events, closing_events. cbn. rewrite app_nil_r.
    by destruct s.
  - cbn [close_each closing]. destruct (close d) as [e|].
    + done.
    + unfold mbind, M_bind, bind, emit. rewrite IH.
      unfold set_events, closing_events. cbn. by rewrite <- (assoc_L (++)).
Qed.

Lemma closing_clean docs :
  Forall (λ pd, close pd.2.2 = None) docs →
  closing docs = ((λ pd, pd.2.1) <$> docs, None).
Proof.
  induction 1 as [|[p [h d]] docs Hd _ IH]; [done|].
  cbn in *. by rewrite Hd, IH.
Qed.

Lemma closing_complete docs :
  (closing docs).2 = None → (closing docs).1 = (λ pd, pd.2.1) <$> docs.
Proof.
  induction docs as [|[p [h d]] docs IH]; cbn; [done|].
  destruct (close d); cbn; [done|]. intros Hc. f_equal. auto.
Qed.

Lemma closing_prefix docs :
  ((closing docs).1 ++ match (closing docs).2 with
                       | Some (h, _) => [h]
                       | None => []
                       end) `prefix_of` ((λ pd, pd.2.1) <$> docs).
Proof.
  induction docs as [|[p [h d]] docs IH]; cbn.
  - done.
  - destruct (close d); cbn.
    + apply (prefix_cons h [] _), prefix_nil.
    + by apply prefix_cons.
Qed.

Lemma closing_failure docs h e :
  (closing docs).2 = Some (h, e) →
  ∃ p d, (p, (h, d)) ∈ docs ∧ close d = Some e.
Proof.
  induction docs as [|[p [h' d]] docs IH]; cbn; [done|].
  destruct (close d) as [e'|] eqn:Hc; cbn.
  - intros [= -> ->]. exists p, d. split; [|done]. apply elem_of_cons. by left.
  - intros (p' & d' & Hin & Hc')%IH. exists p', d'. split; [|done].
    apply elem_of_cons. by right.
Qed.

Lemma observe_closed_handles (hs : list nat) :
  opened (Path := Path) (EvXdwClose <$> hs) = [] ∧
  closed (Path := Path) (EvXdwClose <$> hs) = hs ∧
  close_failures (Path := Path) (EvXdwClose <$> hs) = [] ∧
  close_calls (Path := Path) (EvXdwClose <$> hs) = hs ∧
  saves (Path := Path) (EvXdwClose <$> hs) = [].
Proof.
  induction hs as [|h hs (IH1 & IH2 & IH3 & IH4 & IH5)]; [done|].
  cbn. split_and!; auto; by f_equal.
Qed.

Lemma opened_closing c : opened (Path := Path) (closing_events c) = [].
Proof.
  unfold closing_events. rewrite opened_app.
  destruct (observe_closed_handles c.1) as (-> & _).
  by destruct c as [hs [[h e]|]].
Qed.

Lemma closed_closing c : closed (Path := Path) (closing_events c) = c.1.
Proof.
  unfold closing_events. rewrite closed_app.
  destruct (observe_closed_handles c.1) as (_ & -> & _).
  destruct c as [hs [[h e]|]]; cbn; by rewrite app_nil_r.
Qed.

Lemma close_failures_closing c :
  close_failures (Path := Path) (closing_events c)
  = match c.2 with Some (h, _) => [h] | None => [] end.
Proof.
  unfold closing_events. rewrite close_failures_app.
  destruct (observe_closed_handles c.1) as (_ & _ & -> & _).
  by destruct c as [hs [[h e]|]].
Qed.

Lemma close_calls_closing c :
  close_calls (Path := Path) (closing_events c)
  = c.1 ++ match c.2 with Some (h, _) => [h] | None => [] end.
Proof.
  unfold closing_events. rewrite close_calls_app.
  destruct (observe_closed_handles c.1) as (_ & _ & _ & -> & _).
  by destruct c as [hs [[h e]|]].
Qed.

Lemma closing_no_output c :
  Forall (λ ev, writes_output (Path := Path) ev = false) (closing_events c).
Proof.
  unfold closing_events. apply Forall_app. split.
  - apply Forall_fmap, Forall_true. done.
  - destruct c as [hs [[h e]|]]; by repeat constructor.
Qed.

(** *** The whole call *)

Lemma cache_inv_entered env : cache_inv 0 env entered.
Proof. split; cbn; try done; by repeat constructor. Qed.

Lemma create_merged_tiff_unfold env entries output_path compression :
  create_merged_tiff env entries output_path compression initial
  = let '(r1, s1) := page_loop env compression 0 entries entered in
    let c := closing (xdw_docs s1) in
    let s3 := {| temp_dir := None; frames := frames s1; xdw_docs := xdw_docs s1;
                 next_handle := next_handle s1;
                 events := events s1 ++ closing_events c ++ [EvRmtree] |} in
    match c.2 with
    | Some (_, e) => (Raise e, s3)
    | None =>
      match r1 with
      | Raise e => (Raise e, s3)
      | Ok _ => save_frames env output_path compression s3
      end
    end.
Proof.
  unfold create_merged_tiff, with_TemporaryDirectory, try_finally, close_opened,
    mbind, M_bind, bind.
  cbn [initial temp_dir frames xdw_docs next_handle events app].
  change {| temp_dir := Some ∅; frames := []; xdw_docs := [];
            next_handle := 0; events := [EvMkdtemp] |} with (entered (Path := Path)).
  destruct (page_loop env compression 0 entries entered) as [r1 s1].
  rewrite close_each_spec. unfold set_events.
  cbn [temp_dir frames xdw_docs next_handle events].
  destruct (closing (xdw_docs s1)).2 as [[h e]|];
    cbn [temp_dir frames xdw_docs next_handle events];
    rewrite <- ?(assoc_L (++)); [done|].
  by destruct r1.
Qed.

Lemma spec_pages_Forall2 env compression entries fs :
  spec_pages env compression entries = Ok fs →
  Forall2 (λ entry f, spec_page env compression entry = Ok f) entries fs.
Proof.
  revert fs. induction entries as [|entry entries IH]; intros fs; cbn.
  - intros [= <-]. constructor.
  - destruct (spec_page env compression entry) as [f|e] eqn:Hp; [|done].
    destruct (spec_pages env compression entries) as [fs'|e]; [|done].
    intros [= <-]. constructor; auto.
Qed.

Lemma save_frames_spec env output_path compression s :
  save_frames env output_path compression s
  = match frames s with
    | [] => (Raise RuntimeError_no_pages, s)
    | first :: rest =>
      match Image_save env output_path first rest compression with
      | None => (Ok tt, set_events s (events s ++ [EvSave output_path (first :: rest)
                                                          compression (400, 400)]))
      | Some e => (Raise e, set_events s (events s ++ [EvSaveFailed output_path]))
      end
    end.
Proof.
  unfold save_frames. destruct (frames s) as [|first rest]; [done|].
  by destruct (Image_save env output_path first rest compression).
Qed.

(** Everything the theorems below need to know about one call, from a
    fresh state: the loop, the closing loop and the removal of the
    directory. *)
Lemma merge_run env entries output_path compression :
  ∃ r1 s1,
    cache_inv 0 env s1 ∧
    (∀ p, p ∈ (xdw_docs s1).*1 → p ∈ docuworks_paths entries) ∧
    match spec_pages env compression entries with
    | Ok fs => r1 = Ok tt ∧ frames s1 = fs ∧
               (∀ p, p ∈ docuworks_paths entries → p ∈ (xdw_docs s1).*1)
    | Raise e => r1 = Raise e
    end ∧
    create_merged_tiff env entries output_path compression initial
    = let c := closing (xdw_docs s1) in
      let s3 := {| temp_dir := None; frames := frames s1; xdw_docs := xdw_docs s1;
                   next_handle := next_handle s1;
                   events := events s1 ++ closing_events c ++ [EvRmtree] |} in
      match c.2 with
      | Some (_, e) => (Raise e, s3)
      | None =>
        match r1 with
        | Raise e => (Raise e, s3)
        | Ok _ => save_frames env output_path compression s3
        end
      end.
Proof.
  destruct (page_loop_spec 0 env compression entries 0%nat entered
              (cache_inv_entered env))
    as (r1 & s1 & Hloop & Hinv & Hsub & _ & Hres).
  exists r1, s1. split_and!; auto.
  - intros p Hp. destruct (Hsub p Hp) as [Hp'|]; [|done].
    by apply elem_of_nil in Hp'.
  - by rewrite create_merged_tiff_unfold, Hloop.
Qed.

Lemma closes_cleanly_cache env entries s1 :
  cache_inv 0 env s1 →
  (∀ p, p ∈ (xdw_docs s1).*1 → p ∈ docuworks_paths entries) →
  closes_cleanly env entries →
  closing (xdw_docs s1) = ((λ pd, pd.2.1) <$> xdw_docs s1, None).
Proof.
  intros Hinv Hsub Hclean. apply closing_clean.
  pose proof (inv_docs _ _ _ Hinv) as Hdocs.
  rewrite Forall_forall in *. intros [p [h d]] Hin. cbn.
  apply (Hclean p); [|by apply (Hdocs _ Hin)].
  apply Hsub. by apply (list_elem_of_fmap_2 fst _ _ Hin).
Qed.

Lemma opened_handles_cache env s1 :
  cache_inv 0 env s1 →
  (opened (events s1)).*2 = (λ pd, pd.2.1) <$> xdw_docs s1 ∧
  (opened (events s1)).*1 = (xdw_docs s1).*1.
Proof.
  intros Hinv. rewrite (inv_opened _ _ _ Hinv), <- !list_fmap_compose. done.
Qed.

(** What one call leaves behind, read off its trace. *)
Lemma merge_observations env entries output_path compression r s :
  create_merged_tiff env entries output_path compression initial = (r, s) →
  ∃ r1 s1,
    let c := closing (xdw_docs s1) in
    let failed := match c.2 with Some (h, _) => [h] | None => [] end in
    cache_inv 0 env s1 ∧
    (∀ p, p ∈ (xdw_docs s1).*1 → p ∈ docuworks_paths entries) ∧
    match spec_pages env compression entries with
    | Ok fs => r1 = Ok tt ∧ frames s1 = fs ∧
               (∀ p, p ∈ docuworks_paths entries → p ∈ (xdw_docs s1).*1)
    | Raise e => r1 = Raise e
    end ∧
    temp_dir s = None ∧
    opened (events s) = opened (events s1) ∧
    close_calls (events s) = c.1 ++ failed ∧
    closed (events s) = c.1 ∧
    close_failures (events s) = failed ∧
    r = match c.2 with
        | Some (_, e) => Raise e
        | None =>
          match r1 with
          | Raise e => Raise e
          | Ok _ =>
            match frames s1 with
            | [] => Raise RuntimeError_no_pages
            | first :: rest =>
              match Image_save env output_path first rest compression with
              | None => Ok tt
              | Some e => Raise e
              end
            end
          end
        end ∧
    (r = Ok tt → saves (events s)
                 = [(output_path, frames s1, compression, (400, 400))]) ∧
    (is_Ok r1 = false →
     Forall (λ ev, writes_output ev = false) (events s) ∧
     last (events s) = Some EvRmtree).
Proof.
  destruct (merge_run env entries output_path compression)
    as (r1 & s1 & Hinv & Hsub & Hres & ->).
  intros Hrun. exists r1, s1. cbn zeta. split_and!; auto.
  all: pose proof (inv_no_close _ _ _ Hinv) as Hnc;
       pose proof (closed_close_calls _ Hnc) as Hncl;
       pose proof (close_failures_close_calls _ Hnc) as Hnf;
       pose proof (inv_no_output _ _ _ Hinv) as Hno;
       pose proof (saves_no_output _ Hno) as Hns.
  all: cbn zeta in Hrun; rewrite save_frames_spec in Hrun;
       cbn [frames events] in Hrun; unfold set_events in Hrun;
       cbn [temp_dir frames xdw_docs next_handle events] in Hrun.
  all: destruct (closing (xdw_docs s1)) as [hs [[h e]|]] eqn:Hc; cbn [fst snd] in *;
       [|destruct r1 as [[]|e];
         [destruct (frames s1) as [|first rest] eqn:Hfs;
          [|destruct (Image_save env output_path first rest compression)
              as [e|] eqn:Hsave]|]];
       injection Hrun as <- <-; cbn [temp_dir events]; try done.
  all: rewrite <- ?Hc;
       rewrite ?opened_app, ?close_calls_app, ?closed_app, ?close_failures_app,
         ?saves_app, ?opened_closing, ?closed_closing, ?close_failures_closing,
         ?close_calls_closing, ?Hc, ?Hnc, ?Hncl, ?Hnf, ?Hns;
       cbn [fst snd opened closed close_calls close_failures saves omap list_omap app];
       rewrite ?app_nil_r; try done.
  - intros _. by rewrite (saves_no_output _ (closing_no_output _)).
  - intros _. split; [|by rewrite !(assoc_L (++)), last_snoc].
    rewrite !Forall_app. split_and!; [done|apply closing_no_output|].
    by repeat constructor.
  - intros _. split; [|by rewrite !(assoc_L (++)), last_snoc].
    rewrite !Forall_app. split_and!; [done|apply closing_no_output|].
    by repeat constructor.
Qed.

(** A merge whose pages all resolve, whose documents close and whose
    save succeeds does return. *)
Lemma merge_returns env entries output_path compression first rest :
  spec_pages env compression entries = Ok (first :: rest) →
  closes_cleanly env entries →
  Image_save env output_path first rest compression = None →
  (create_merged_tiff env entries output_path compression initial).1 = Ok tt.
Proof.
  intros Hspec Hclean Hsave.
  destruct (create_merged_tiff env entries output_path compression initial)
    as [r s] eqn:Hrun.
  destruct (merge_observations _ _ _ _ _ _ Hrun)
    as (r1 & s1 & Hinv & Hsub & Hres & _ & _ & _ & _ & _ & Hr & _).
  cbn zeta in *. rewrite Hspec in Hres. destruct Hres as (-> & Hfs & _).
  rewrite (closes_cleanly_cache _ _ _ Hinv Hsub Hclean), Hfs, Hsave in Hr.
  done.
Qed.

End Merge.

(** ** The claims about the merge *)
Section MergeClaims.
Context {Path : Type} `{PurePath Path}.
Implicit Types (env : Env (Path := Path)) (s : MergeState (Path := Path))
  (entry : PageEntry (Path := Path)) (entries : list (PageEntry (Path := Path))).

(** C6.  The bi-level normalisation is idempotent: normalising the
    result of a normalisation gives that result again (when the first
    normalisation raises there is no result to normalise); a frame whose
    mode is already ["1"] is returned as it is. *)
Theorem ensure_group4_mode_idempotent env (img : Image) :
  match ensure_group4_mode env img with
  | Ok once => ensure_group4_mode env once = Ok once
  | Raise _ => True
  end ∧
  (mode img = "1" → ensure_group4_mode env img = Ok img).
Proof.
  unfold ensure_group4_mode. split.
  - destruct (String.eqb (mode img) "1") eqn:Hm; [by rewrite Hm|].
    by destruct (convert_1 env img).
  - intros ->. done.
Qed.

(** C4.  A merge that returns has saved exactly once, and what it saved
    has one frame per page reference, the [i]-th frame being the frame
    extracted from the [i]-th reference, normalised when the scheme asks
    for it; the list of references was not empty. *)
Theorem merge_preserves_order env entries output_path compression s :
  create_merged_tiff env entries output_path compression initial = (Ok tt, s) →
  ∃ saved,
    saves (events s) = [(output_path, saved, compression, (400, 400))] ∧
    length saved = length entries ∧
    entries ≠ [] ∧
    ∀ i entry, entries !! i = Some entry →
               ∃ frame, saved !! i = Some frame ∧
                        spec_page env compression entry = Ok frame.
Proof.
  intros Hrun.
  destruct (merge_observations _ _ _ _ _ _ Hrun)
    as (r1 & s1 & _ & _ & Hres & _ & _ & _ & _ & _ & Hr & Hsaves & _).
  cbn zeta in *. exists (frames s1). split; [by apply Hsaves|].
  destruct (spec_pages env compression entries) as [fs|e] eqn:Hspec.
  2:{ subst r1. by destruct (closing (xdw_docs s1)).2 as [[? ?]|]. }
  destruct Hres as (-> & Hfs & _). rewrite Hfs in *.
  pose proof (spec_pages_Forall2 _ _ _ _ Hspec) as Hall.
  split; [symmetry; by eapply Forall2_length|]. split.
  - intros ->. cbn in Hspec. injection Hspec as <-.
    by destruct (closing (xdw_docs s1)).2 as [[? ?]|].
  - intros i entry Hi.
    destruct (Forall2_lookup_l _ _ _ _ _ Hall Hi) as (frame & ? & ?). eauto.
Qed.

(** C1 (amended).  When a page fails to be extracted or normalised, the
    call raises, nothing was written to the output path, the temporary
    directory is gone and its removal is the last thing the call did.
    The documents opened so far are closed in the order of opening, each
    at most once, up to the first whose [close] raises: that one is the
    last on which [close] is called, and its exception is what the call
    raises.  When no [close] raises, every document opened was closed
    exactly once and the exception that reaches the caller is the one of
    the failing page.  No [close] raises when every document of the
    page references closes cleanly. *)
Theorem failed_merge_cleans_up env entries output_path compression e r s :
  spec_pages env compression entries = Raise e →
  create_merged_tiff env entries output_path compression initial = (r, s) →
  is_Ok r = false ∧
  Forall (λ ev, writes_output ev = false) (events s) ∧
  temp_dir s = None ∧
  last (events s) = Some EvRmtree ∧
  NoDup (opened (events s)).*2 ∧
  close_calls (events s) `prefix_of` (opened (events s)).*2 ∧
  closed (events s) `prefix_of` (opened (events s)).*2 ∧
  (close_failures (events s) = [] →
   r = Raise e ∧ closed (events s) = (opened (events s)).*2) ∧
  (∀ h, h ∈ close_failures (events s) →
        close_calls (events s) = closed (events s) ++ [h] ∧
        ∃ p d e', (p, h) ∈ opened (events s) ∧ xdwopen env p = Ok d ∧
                  close d = Some e' ∧ r = Raise e') ∧
  (closes_cleanly env entries → close_failures (events s) = []).
Proof.
  intros Hspec Hrun.
  destruct (merge_observations _ _ _ _ _ _ Hrun)
    as (r1 & s1 & Hinv & Hsub & Hres & Htmp & Hop & Hcalls & Hcl & Hf & Hr
        & _ & Hfail).
  cbn zeta in *. rewrite Hspec in Hres. subst r1.
  destruct (Hfail eq_refl) as [Hno Hlast].
  destruct (opened_handles_cache _ _ Hinv) as [Hhandles _].
  rewrite Hop, Hcalls, Hcl, Hf, Hhandles.
  pose proof (closing_prefix (xdw_docs s1)) as Hpre.
  pose proof (closing_complete (xdw_docs s1)) as Hall.
  pose proof (closing_failure (xdw_docs s1)) as Hwhy.
  pose proof (closes_cleanly_cache env entries s1 Hinv Hsub) as Hclean.
  assert (Hnd : NoDup ((λ pd : Path * (nat * XdwDocument), pd.2.1)
                         <$> xdw_docs s1))
    by (rewrite (inv_handles _ _ _ Hinv); apply NoDup_seq).
  destruct (closing (xdw_docs s1)) as [hs [[h e']|]]; cbn [fst snd] in *;
    subst r.
  - split; [done|]. split; [done|]. split; [done|]. split; [done|].
    split; [done|]. split; [done|]. split; [by eapply prefix_app_l|].
    split; [by intros [=]|]. split; [|by intros [=]%Hclean].
    intros h0 ->%list_elem_of_singleton. split; [done|].
    destruct (Hwhy h e' eq_refl) as (p & d & Hin & Hclose).
    exists p, d, e'. split_and!; [| |done..].
    + rewrite (inv_opened _ _ _ Hinv).
      apply (list_elem_of_fmap_2 (λ pd, (pd.1, pd.2.1)) _ _ Hin).
    + pose proof (inv_docs _ _ _ Hinv) as Hdocs.
      rewrite Forall_forall in Hdocs. apply (Hdocs _ Hin).
  - rewrite app_nil_r in *. rewrite (Hall eq_refl) in *.
    split; [done|]. split; [done|]. split; [done|]. split; [done|].
    split; [done|]. split; [done|]. split; [done|].
    split; [done|]. split; [|done].
    by intros h0 ?%elem_of_nil.
Qed.

(** C2 (amended).  At the end of the merge scope, whether the loop
    returned or raised, the documents are closed in the order of
    opening, each at most once.  When no [close] raises, every document
    opened is closed exactly once and the call ends with its primary
    result.  A [close] that raises is not caught: it is the last [close]
    called, the documents opened after that one stay open, and its
    exception is what the call raises, whatever the primary result.  No
    [close] raises when every document of the page references closes
    cleanly. *)
Theorem handles_closed_at_scope_exit env entries output_path compression r s :
  create_merged_tiff env entries output_path compression initial = (r, s) →
  NoDup (opened (events s)).*2 ∧
  close_calls (events s) `prefix_of` (opened (events s)).*2 ∧
  (close_failures (events s) = [] →
   closed (events s) = (opened (events s)).*2 ∧
   r = primary_result env entries output_path compression) ∧
  (closes_cleanly env entries → close_failures (events s) = []) ∧
  (∀ h, h ∈ close_failures (events s) →
        close_calls (events s) = closed (events s) ++ [h] ∧
        ∃ p d e, (p, h) ∈ opened (events s) ∧ xdwopen env p = Ok d ∧
                 close d = Some e ∧ r = Raise e).
Proof.
  intros Hrun.
  destruct (merge_observations _ _ _ _ _ _ Hrun)
    as (r1 & s1 & Hinv & Hsub & Hres & _ & Hop & Hcalls & Hcl & Hf & Hr & _ & _).
  cbn zeta in *.
  destruct (opened_handles_cache _ _ Hinv) as [Hhandles _].
  rewrite Hop, Hcalls, Hcl, Hf, Hhandles.
  pose proof (closing_prefix (xdw_docs s1)) as Hpre.
  pose proof (closing_complete (xdw_docs s1)) as Hall.
  pose proof (closing_failure (xdw_docs s1)) as Hwhy.
  pose proof (closes_cleanly_cache env entries s1 Hinv Hsub) as Hclean.
  assert (Hnd : NoDup ((λ pd : Path * (nat * XdwDocument), pd.2.1)
                         <$> xdw_docs s1))
    by (rewrite (inv_handles _ _ _ Hinv); apply NoDup_seq).
  destruct (closing (xdw_docs s1)) as [hs [[h e]|]]; cbn [fst snd] in *;
    subst r.
  - split; [done|]. split; [done|]. split; [by intros [=]|].
    split; [by intros [=]%Hclean|].
    intros h0 ->%list_elem_of_singleton. split; [done|].
    destruct (Hwhy h e eq_refl) as (p & d & Hin & Hclose).
    exists p, d, e. split_and!; [| |done..].
    + rewrite (inv_opened _ _ _ Hinv).
      apply (list_elem_of_fmap_2 (λ pd, (pd.1, pd.2.1)) _ _ Hin).
    + pose proof (inv_docs _ _ _ Hinv) as Hdocs.
      rewrite Forall_forall in Hdocs. apply (Hdocs _ Hin).
  - rewrite app_nil_r in *. rewrite (Hall eq_refl) in *.
    split; [done|]. split; [done|]. split; [|split; [done|]].
    + intros _. split; [done|]. unfold primary_result.
      destruct (spec_pages env compression entries) as [fs|e].
      * destruct Hres as (-> & <- & _). done.
      * by subst r1.
    + by intros h0 ?%elem_of_nil.
Qed.

(** C8.  In the trace of one merge no path is opened twice and no
    handle is handed out twice, so at no time are two handles open for
    one path.  Only documents of the page references are opened, and
    when every page resolves each of them is opened exactly once.  The
    opening is lazy: rendering a page of a document that is in the cache
    opens nothing and leaves the cache as it is, and rendering a page of
    a document that is not adds that one document to the cache. *)
Theorem one_handle_per_path env entries output_path compression r s :
  create_merged_tiff env entries output_path compression initial = (r, s) →
  NoDup (opened (events s)).*1 ∧
  NoDup (opened (events s)).*2 ∧
  (∀ p, p ∈ (opened (events s)).*1 → p ∈ docuworks_paths entries) ∧
  (is_Ok (spec_pages env compression entries) = true →
   ∀ p, p ∈ docuworks_paths entries → p ∈ (opened (events s)).*1) ∧
  (∀ entry order s0 doc,
     dict_get (source_path entry) (xdw_docs s0) = Some doc →
     xdw_docs (convert_docuworks_page env entry order s0).2 = xdw_docs s0 ∧
     opened (events (convert_docuworks_page env entry order s0).2)
     = opened (events s0)) ∧
  (∀ entry order s0 d,
     dict_get (source_path entry) (xdw_docs s0) = None →
     xdwopen env (source_path entry) = Ok d →
     xdw_docs (convert_docuworks_page env entry order s0).2
     = xdw_docs s0 ++ [(source_path entry, (next_handle s0, d))] ∧
     opened (events (convert_docuworks_page env entry order s0).2)
     = opened (events s0) ++ [(source_path entry, next_handle s0)]).
Proof.
  intros Hrun.
  destruct (merge_observations _ _ _ _ _ _ Hrun)
    as (r1 & s1 & Hinv & Hsub & Hres & _ & Hop & _).
  cbn zeta in *.
  destruct (opened_handles_cache _ _ Hinv) as [Hhandles Hpaths].
  rewrite Hop, Hhandles, Hpaths.
  assert (Hcached : ∀ entry order s0 doc,
     dict_get (source_path entry) (xdw_docs s0) = Some doc →
     xdw_docs (convert_docuworks_page env entry order s0).2 = xdw_docs s0 ∧
     opened (events (convert_docuworks_page env entry order s0).2)
     = opened (events s0)).
  { intros entry order s0 [handle d] Hget.
    destruct (temp_dir s0) as [dir|] eqn:Hdir.
    - rewrite (convert_docuworks_page_cached _ _ _ _ _ _ _ Hget Hdir).
      destruct (export_image d (page_index entry)); [|done].
      cbn [snd xdw_docs events]. rewrite opened_app. cbn.
      by rewrite app_nil_r.
    - unfold convert_docuworks_page. rewrite Hget, Hdir.
      by destruct (export_image d (page_index entry)). }
  split_and!; auto.
  - apply (inv_nodup _ _ _ Hinv).
  - rewrite (inv_handles _ _ _ Hinv). apply NoDup_seq.
  - intros Hok. destruct (spec_pages env compression entries); [|done].
    by destruct Hres as (_ & _ & ?).
  - intros entry order s0 d Hget Hopen.
    rewrite (convert_docuworks_page_open _ _ _ _ _ Hget Hopen).
    edestruct Hcached as [-> ->].
    { cbn [xdw_docs]. by apply dict_get_snoc. }
    cbn [xdw_docs events]. by rewrite opened_app.
Qed.

(** C9 (amended).  With an empty catalog [export_tiff] reports that
    there are no pages and does nothing else: the trace is empty.
    [create_merged_tiff] called on an empty list raises the no-pages
    error, writes no output and no artifact, and leaves no directory
    behind; it does create the temporary directory and remove it before
    the empty check. *)
Theorem empty_catalog_merge env compression output_path
    (page_list : QListWidget (Path := Path)) :
  (items page_list = [] →
   export_tiff env compression page_list
   = (Ok tt, [QMessageBox_information_no_pages], initial)) ∧
  events (initial (Path := Path)) = [] ∧
  create_merged_tiff env [] output_path compression initial
  = (Raise RuntimeError_no_pages,
     {| temp_dir := None; frames := []; xdw_docs := []; next_handle := 0;
        events := [EvMkdtemp; EvRmtree] |}).
Proof.
  split_and!; [|done..].
  intros Hempty. unfold export_tiff, count. by rewrite Hempty.
Qed.

End MergeClaims.

Lemma ensure_group4_mode_idempotent_witness :
  mode {| mode := "1"; img_size := (1, 1); im := [0] |} = "1" ∧
  ensure_group4_mode Examples.env_ok {| mode := "1"; img_size := (1, 1); im := [0] |}
  = Ok {| mode := "1"; img_size := (1, 1); im := [0] |}.
Proof.
  split; [reflexivity|].
  apply (ensure_group4_mode_idempotent Examples.env_ok). reflexivity.
Defined.

Lemma merge_preserves_order_witness :
  ∃ s saved,
    create_merged_tiff Examples.env_ok Examples.catalog_example
                       "merged_output.tif" "group4" initial = (Ok tt, s) ∧
    saves (events s) = [("merged_output.tif", saved, "group4", (400, 400))] ∧
    length saved = 3%nat.
Proof.
  eexists.
  assert (Hrun : create_merged_tiff Examples.env_ok Examples.catalog_example
                   "merged_output.tif" "group4" initial
                 = (Ok tt, _)) by (vm_compute; reflexivity).
  destruct (merge_preserves_order _ _ _ _ _ Hrun) as (saved & Hs & Hlen & _).
  exists saved. split_and!; [exact Hrun|exact Hs|exact Hlen].
Defined.

Lemma failed_merge_cleans_up_witness :
  ∃ r s,
    spec_pages Examples.env_docC_close_fails "group4" Examples.catalog_fails_early
    = Raise (IndexError 7 "docA.tiff" 2) ∧
    create_merged_tiff Examples.env_docC_close_fails Examples.catalog_fails_early
                       "merged_output.tif" "group4" initial = (r, s) ∧
    close_failures (events s) = [] ∧
    is_Ok r = false ∧ temp_dir s = None ∧
    Forall (λ ev, writes_output ev = false) (events s) ∧
    r = Raise (IndexError 7 "docA.tiff" 2) ∧
    closed (events s) = (opened (events s)).*2 ∧
    opened (events s) = [("docB.xdw", 0%nat)].
Proof.
  do 2 eexists.
  assert (Hspec : spec_pages Examples.env_docC_close_fails "group4"
                    Examples.catalog_fails_early
                  = Raise (IndexError 7 "docA.tiff" 2)) by (vm_compute; reflexivity).
  assert (Hrun : create_merged_tiff Examples.env_docC_close_fails
                   Examples.catalog_fails_early
                   "merged_output.tif" "group4" initial = (_, _))
    by (vm_compute; reflexivity).
  destruct (failed_merge_cleans_up _ _ _ _ _ _ _ Hspec Hrun)
    as (Hr & Hno & Htmp & _ & _ & _ & _ & Hclean & _).
  destruct (Hclean eq_refl) as [Hexc Hall].
  split_and!; [exact Hspec|exact Hrun|reflexivity|exact Hr|exact Htmp|exact Hno
              |exact Hexc|exact Hall|reflexivity].
Defined.

Lemma failed_merge_leaves_handle_open_counterexample :
  spec_pages Examples.env_close_fails "group4" Examples.catalog_stale
  = Raise (IndexError 7 "docA.tiff" 2) ∧
  (create_merged_tiff Examples.env_close_fails Examples.catalog_stale
                      "merged_output.tif" "group4" initial).1
  = Raise (LibraryError "close failed") ∧
  opened (events (create_merged_tiff Examples.env_close_fails Examples.catalog_stale
                                     "merged_output.tif" "group4" initial).2)
  = [("docB.xdw", 0%nat); ("docC.xdw", 1%nat)] ∧
  close_calls (events (create_merged_tiff Examples.env_close_fails
                         Examples.catalog_stale
                         "merged_output.tif" "group4" initial).2)
  = [0%nat] ∧
  closed (events (create_merged_tiff Examples.env_close_fails
                    Examples.catalog_stale
                    "merged_output.tif" "group4" initial).2)
  = [].
Proof. vm_compute. by split_and!. Qed.

Lemma handles_closed_at_scope_exit_witness :
  ∃ r s,
    create_merged_tiff Examples.env_docC_close_fails Examples.catalog_fails_early
                       "merged_output.tif" "tiff_lzw" initial = (r, s) ∧
    close_failures (events s) = [] ∧
    NoDup (opened (events s)).*2 ∧
    close_calls (events s) `prefix_of` (opened (events s)).*2 ∧
    closed (events s) = (opened (events s)).*2 ∧
    r = primary_result Examples.env_docC_close_fails Examples.catalog_fails_early
                       "merged_output.tif" "tiff_lzw" ∧
    opened (events s) = [("docB.xdw", 0%nat)].
Proof.
  do 2 eexists.
  assert (Hrun : create_merged_tiff Examples.env_docC_close_fails
                   Examples.catalog_fails_early
                   "merged_output.tif" "tiff_lzw" initial = (_, _))
    by (vm_compute; reflexivity).
  destruct (handles_closed_at_scope_exit _ _ _ _ _ _ Hrun)
    as (Hnd & Hpre & Hclean & _).
  destruct (Hclean eq_refl) as [Hall Hres].
  split_and!; [exact Hrun|reflexivity|exact Hnd|exact Hpre|exact Hall|exact Hres
              |reflexivity].
Defined.

Lemma close_failure_propagates_counterexample :
  primary_result Examples.env_close_fails Examples.catalog_two_docs
                 "merged_output.tif" "tiff_lzw" = Ok tt ∧
  (create_merged_tiff Examples.env_close_fails Examples.catalog_two_docs
                      "merged_output.tif" "tiff_lzw" initial).1
  = Raise (LibraryError "close failed") ∧
  opened (events (create_merged_tiff Examples.env_close_fails
                    Examples.catalog_two_docs
                    "merged_output.tif" "tiff_lzw" initial).2)
  = [("docB.xdw", 0%nat); ("docC.xdw", 1%nat)] ∧
  close_calls (events (create_merged_tiff Examples.env_close_fails
                         Examples.catalog_two_docs
                         "merged_output.tif" "tiff_lzw" initial).2)
  = [0%nat] ∧
  closed (events (create_merged_tiff Examples.env_close_fails
                    Examples.catalog_two_docs
                    "merged_output.tif" "tiff_lzw" initial).2)
  = [].
Proof. vm_compute. by split_and!. Qed.

Lemma one_handle_per_path_witness :
  ∃ r s,
    create_merged_tiff Examples.env_ok Examples.catalog_two_docs
                       "merged_output.tif" "tiff_lzw" initial = (r, s) ∧
    NoDup (opened (events s)).*1 ∧
    (opened (events s)).*1 = ["docB.xdw"; "docC.xdw"].
Proof.
  do 2 eexists.
  assert (Hrun : create_merged_tiff Examples.env_ok Examples.catalog_two_docs
                   "merged_output.tif" "tiff_lzw" initial = (_, _))
    by (vm_compute; reflexivity).
  destruct (one_handle_per_path _ _ _ _ _ _ Hrun) as (Hnd & _).
  split_and!; [exact Hrun|exact Hnd|reflexivity].
Defined.

Lemma empty_catalog_merge_witness :
  items Examples.empty_list = [] ∧
  export_tiff Examples.env_ok "group4" Examples.empty_list
  = (Ok tt, [QMessageBox_information_no_pages], initial).
Proof.
  split; [reflexivity|].
  apply (empty_catalog_merge Examples.env_ok "group4" "merged_output.tif").
  reflexivity.
Defined.

Lemma empty_merge_makes_directory_counterexample :
  (create_merged_tiff Examples.env_ok [] "merged_output.tif" "group4" initial).1
  = Raise RuntimeError_no_pages ∧
  Exists (λ ev, is_fs_write ev = true)
         (events (create_merged_tiff Examples.env_ok [] "merged_output.tif"
                                     "group4" initial).2).
Proof. split; [reflexivity|]. by apply Exists_cons_hd. Qed.

(** * Further properties *)

(** ** Reordering, continued *)
Section MoreMoves.
Context {Path : Type} `{PurePath Path}.
Implicit Types (page_list : QListWidget (Path := Path)).

(** A move is nothing, or the exchange of two neighbours, or (for a
    current row past the end, which Qt never reports) a change of the
    current row alone. *)
Lemma move_selected_up_cases page_list :
  move_selected_up page_list = page_list ∨
  (∃ l1 a b l2,
     page_list = {| items := l1 ++ a :: b :: l2;
                    currentRow := Z.of_nat (S (length l1)) |} ∧
     move_selected_up page_list
     = {| items := l1 ++ b :: a :: l2; currentRow := Z.of_nat (length l1) |}) ∨
  (count page_list ≤ currentRow page_list ∧
   items (move_selected_up page_list) = items page_list).
Proof.
  destruct page_list as [l cur].
  destruct (Z.leb_spec cur 0) as [Hle|Hpos].
  { left. unfold move_selected_up. cbn [currentRow].
    by destruct (Z.leb_spec cur 0); [|lia]. }
  destruct (Z.ltb_spec cur (Z.of_nat (length l))) as [Hlt|Hge].
  - right; left.
    destruct (split_two l (Z.to_nat cur - 1)) as (l1 & a & b & l2 & -> & Hl1); [lia|].
    exists l1, a, b, l2. split; [f_equal; lia|].
    apply move_selected_up_split. lia.
  - right; right. unfold count. cbn [items currentRow]. split; [done|].
    unfold move_selected_up, takeItem, count. cbn [items currentRow].
    destruct (Z.leb_spec cur 0); [lia|].
    destruct (Z.ltb_spec cur (Z.of_nat (length l))); [lia|].
    by rewrite andb_false_r.
Qed.

Lemma move_selected_down_cases page_list :
  move_selected_down page_list = page_list ∨
  (∃ l1 a b l2,
     page_list = {| items := l1 ++ a :: b :: l2;
                    currentRow := Z.of_nat (length l1) |} ∧
     move_selected_down page_list
     = {| items := l1 ++ b :: a :: l2; currentRow := Z.of_nat (S (length l1)) |}).
Proof.
  destruct page_list as [l cur].
  destruct (decide (0 ≤ cur < Z.of_nat (length l) - 1)) as [Hin|Hout].
  - right.
    destruct (split_two l (Z.to_nat cur)) as (l1 & a & b & l2 & -> & Hl1); [lia|].
    exists l1, a, b, l2. split; [f_equal; lia|].
    apply move_selected_down_split. lia.
  - left. unfold move_selected_down, count. cbn [items currentRow].
    destruct (Z.ltb_spec cur 0); [done|].
    destruct (Z.leb_spec (Z.of_nat (length l) - 1) cur); [done|lia].
Qed.

(** X1.  Moving the selected row up and then down again gives back the
    list as it was, rows and current row. *)
Theorem move_up_then_down page_list :
  0 < currentRow page_list < count page_list →
  move_selected_down (move_selected_up page_list) = page_list.
Proof.
  destruct page_list as [l cur]. unfold count. cbn [items currentRow].
  intros Hsel.
  destruct (split_two l (Z.to_nat cur - 1)) as (l1 & a & b & l2 & -> & Hl1); [lia|].
  rewrite move_selected_up_split by lia.
  rewrite move_selected_down_split by done. f_equal. lia.
Qed.

(** X2.  Moving the selected row down and then up again gives back the
    list as it was. *)
Theorem move_down_then_up page_list :
  0 ≤ currentRow page_list < count page_list - 1 →
  move_selected_up (move_selected_down page_list) = page_list.
Proof.
  destruct page_list as [l cur]. unfold count. cbn [items currentRow].
  intros Hsel.
  destruct (split_two l (Z.to_nat cur)) as (l1 & a & b & l2 & -> & Hl1); [lia|].
  rewrite move_selected_down_split by lia.
  rewrite move_selected_up_split by done. f_equal. lia.
Qed.

(** X3.  Whatever the state of the list, a move neither adds nor drops
    nor duplicates a row: the rows after the move are a rearrangement of
    the rows before. *)
Theorem moves_permute_rows page_list :
  items (move_selected_up page_list) ≡ₚ items page_list ∧
  items (move_selected_down page_list) ≡ₚ items page_list.
Proof.
  split.
  - destruct (move_selected_up_cases page_list)
      as [->|[(l1 & a & b & l2 & -> & ->)|[_ ->]]]; [done| |done].
    cbn [items]. apply Permutation_app_head, perm_swap.
  - destruct (move_selected_down_cases page_list)
      as [->|(l1 & a & b & l2 & -> & ->)]; [done|].
    cbn [items]. apply Permutation_app_head, perm_swap.
Qed.

(** X4.  A current row that is [-1] or the index of a row stays so under
    both moves. *)
Theorem moves_keep_selection_valid page_list :
  selection_ok page_list →
  selection_ok (move_selected_up page_list) ∧
  selection_ok (move_selected_down page_list).
Proof.
  unfold selection_ok. intros Hsel. split.
  - destruct (move_selected_up_cases page_list)
      as [->|[(l1 & a & b & l2 & -> & ->)|[Hout _]]]; [done| |lia].
    unfold count. cbn [items currentRow]. rewrite length_app. cbn [length]. lia.
  - destruct (move_selected_down_cases page_list)
      as [->|(l1 & a & b & l2 & -> & ->)]; [done|].
    unfold count. cbn [items currentRow]. rewrite length_app. cbn [length]. lia.
Qed.

(** X5.  Moving up as many times as there are rows above the selected
    row brings it to the top; the other rows keep their order, and the
    row stays selected. *)
Theorem move_selected_to_top (l1 : list (QListWidgetItem (Path := Path))) a l2
    page_list :
  items page_list = l1 ++ a :: l2 →
  currentRow page_list = Z.of_nat (length l1) →
  Nat.iter (length l1) move_selected_up page_list
  = {| items := a :: l1 ++ l2; currentRow := 0 |}.
Proof.
  destruct page_list as [l cur]. cbn [items currentRow]. intros -> ->.
  revert l2. induction l1 as [|b l1 IH] using rev_ind; intros l2; [done|].
  rewrite length_app. cbn [length]. rewrite Nat.add_1_r, Nat.iter_succ_r.
  rewrite <- (assoc_L (++)). cbn [app].
  rewrite move_selected_up_split by done.
  rewrite IH. by rewrite <- (assoc_L (++)).
Qed.

(** X6.  Moving down as many times as there are rows below the selected
    row brings it to the bottom, in the same way. *)
Theorem move_selected_to_bottom (l1 : list (QListWidgetItem (Path := Path))) a l2
    page_list :
  items page_list = l1 ++ a :: l2 →
  currentRow page_list = Z.of_nat (length l1) →
  Nat.iter (length l2) move_selected_down page_list
  = {| items := l1 ++ l2 ++ [a];
       currentRow := Z.of_nat (length l1 + length l2) |}.
Proof.
  destruct page_list as [l cur]. cbn [items currentRow]. intros -> ->.
  revert l1. induction l2 as [|b l2 IH]; intros l1.
  - cbn. by rewrite Nat.add_0_r.
  - cbn [length]. rewrite Nat.iter_succ_r.
    rewrite move_selected_down_split by done.
    replace (l1 ++ b :: a :: l2) with ((l1 ++ [b]) ++ a :: l2)
      by (by rewrite <- (assoc_L (++))).
    replace (Z.of_nat (S (length l1))) with (Z.of_nat (length (l1 ++ [b])))
      by (rewrite length_app; cbn; lia).
    rewrite IH. rewrite length_app, <- !(assoc_L (++)). cbn [length app].
    do 2 f_equal. lia.
Qed.

End MoreMoves.

Lemma move_up_then_down_witness :
  0 < currentRow DropExamples.four_rows < count DropExamples.four_rows ∧
  move_selected_down (move_selected_up DropExamples.four_rows)
  = DropExamples.four_rows.
Proof.
  assert (Hsel : 0 < currentRow DropExamples.four_rows
                 < count DropExamples.four_rows) by (unfold count; cbn; lia).
  split; [exact Hsel|]. exact (move_up_then_down _ Hsel).
Defined.

Lemma move_down_then_up_witness :
  0 ≤ currentRow DropExamples.four_rows < count DropExamples.four_rows - 1 ∧
  move_selected_up (move_selected_down DropExamples.four_rows)
  = DropExamples.four_rows.
Proof.
  assert (Hsel : 0 ≤ currentRow DropExamples.four_rows
                 < count DropExamples.four_rows - 1) by (unfold count; cbn; lia).
  split; [exact Hsel|]. exact (move_down_then_up _ Hsel).
Defined.

Lemma moves_keep_selection_valid_witness :
  selection_ok DropExamples.four_rows ∧
  selection_ok (move_selected_up DropExamples.four_rows).
Proof.
  assert (Hsel : selection_ok DropExamples.four_rows)
    by (unfold selection_ok, count; cbn; lia).
  split; [exact Hsel|]. exact (proj1 (moves_keep_selection_valid _ Hsel)).
Defined.

Lemma move_selected_to_top_witness :
  currentRow DropExamples.four_rows = 2 ∧
  Nat.iter 2 move_selected_up DropExamples.four_rows
  = {| items := [new_item "docB.xdw" "docuworks" 0; new_item "docA.tiff" "tiff" 0;
                 new_item "docA.tiff" "tiff" 1; new_item "docA.tiff" "tiff" 2];
       currentRow := 0 |}.
Proof.
  split; [reflexivity|].
  exact (move_selected_to_top
           [new_item "docA.tiff" "tiff" 0; new_item "docA.tiff" "tiff" 1]
           (new_item "docB.xdw" "docuworks" 0)
           [new_item "docA.tiff" "tiff" 2]
           DropExamples.four_rows eq_refl eq_refl).
Defined.

Lemma move_selected_to_bottom_witness :
  currentRow DropExamples.four_rows = 2 ∧
  Nat.iter 1 move_selected_down DropExamples.four_rows
  = {| items := [new_item "docA.tiff" "tiff" 0; new_item "docA.tiff" "tiff" 1;
                 new_item "docA.tiff" "tiff" 2; new_item "docB.xdw" "docuworks" 0];
       currentRow := 3 |}.
Proof.
  split; [reflexivity|].
  exact (move_selected_to_bottom
           [new_item "docA.tiff" "tiff" 0; new_item "docA.tiff" "tiff" 1]
           (new_item "docB.xdw" "docuworks" 0)
           [new_item "docA.tiff" "tiff" 2]
           DropExamples.four_rows eq_refl eq_refl).
Defined.

(** ** Labels and artifact names *)
Section Formatting.

Lemma string_length_app (s t : string) :
  String.length (s +:+ t) = (String.length s + String.length t)%nat.
Proof.
  induction s as [|c s IH]; [done|].
  change (String c s +:+ t) with (String c (s +:+ t)). cbn. by rewrite IH.
Qed.

Lemma string_app_inv_tail (s1 s2 t : string) : s1 +:+ t = s2 +:+ t → s1 = s2.
Proof.
  revert s2. induction s1 as [|c s1 IH]; intros [|d s2] Heq.
  - done.
  - apply (f_equal String.length) in Heq.
    rewrite !string_length_app in Heq. cbn in Heq. lia.
  - apply (f_equal String.length) in Heq.
    rewrite !string_length_app in Heq. cbn in Heq. lia.
  - change (String c (s1 +:+ t) = String d (s2 +:+ t)) in Heq.
    injection Heq as -> Heq. f_equal. by apply IH.
Qed.

Lemma lstrip_zeros_zeros (k : nat) (s : string) :
  lstrip_zeros (zeros k +:+ s) = lstrip_zeros s.
Proof.
  induction k as [|k IH]; [done|].
  change (zeros (S k) +:+ s) with (String "0" (zeros k +:+ s)). exact IH.
Qed.

(** A positive number is printed with a first digit that is not zero. *)
Lemma pretty_N_go_head (x : N) :
  ∀ s, (0 < x)%N →
       ∃ c rest, pretty_N_go x s = String c rest ∧ Ascii.eqb c "0" = false.
Proof.
  induction (N.lt_wf_0 x) as [x _ IH]; intros s Hx.
  rewrite pretty_N_go_step by done.
  assert (x < 10 ∨ 10 ≤ x)%N as [Hsmall|Hbig] by lia.
  - rewrite N.div_small, N.mod_small, pretty_N_go_0 by done.
    eexists _, _. split; [done|].
    destruct x as [|p]; [lia|].
    do 4 (try destruct p as [p|p|]); try reflexivity; lia.
  - apply IH.
    + apply N.div_lt; lia.
    + apply N.div_str_pos. lia.
Qed.

Lemma lstrip_zeros_pretty (x : N) :
  lstrip_zeros (pretty x) = if decide (x = 0%N) then EmptyString else pretty x.
Proof.
  unfold pretty, pretty_N. case_decide as Hx; [done|].
  destruct (pretty_N_go_head x EmptyString) as (c & rest & -> & Hc); [lia|].
  cbn. by rewrite Hc.
Qed.

Lemma pretty_N_nonempty (x : N) : pretty x ≠ EmptyString.
Proof.
  unfold pretty, pretty_N. case_decide as Hx; [done|].
  destruct (pretty_N_go_head x EmptyString) as (c & rest & -> & _); [lia|done].
Qed.

Lemma zero_pad_pretty_inj (width : nat) (a b : N) :
  zero_pad width (pretty a) = zero_pad width (pretty b) → a = b.
Proof.
  unfold zero_pad. intros Heq. apply (f_equal lstrip_zeros) in Heq.
  rewrite !lstrip_zeros_zeros, !lstrip_zeros_pretty in Heq.
  repeat case_decide; subst; try done.
  - by destruct (pretty_N_nonempty b).
  - by destruct (pretty_N_nonempty a).
  - by apply (inj pretty).
Qed.

(** The zero-padded decimal of a number that is not negative determines
    the number, whatever the width. *)
Lemma format_0d_inj (width : nat) (a b : Z) :
  0 ≤ a → 0 ≤ b → format_0d width a = format_0d width b → a = b.
Proof.
  intros Ha Hb. unfold format_0d.
  destruct (Z.ltb_spec a 0); [lia|]. destruct (Z.ltb_spec b 0); [lia|].
  intros Heq%zero_pad_pretty_inj. lia.
Qed.

(** X7.  The artifact names of two different positions differ, so no
    page rendered in a merge can land on the file of another. *)
Theorem temp_tiff_name_inj (order1 order2 : nat) :
  temp_tiff_name order1 = temp_tiff_name order2 → order1 = order2.
Proof.
  unfold temp_tiff_name. intros Heq.
  apply (inj (String.app "docuworks_")) in Heq.
  apply string_app_inv_tail in Heq.
  apply format_0d_inj in Heq; lia.
Qed.

End Formatting.

Section Labels.
Context {Path : Type} `{PurePath Path}.

(** X8.  Two pages of one file have different labels: for entries of
    the same path with page indexes that are not negative, equal labels
    mean equal page indexes. *)
Theorem label_inj (entry1 entry2 : PageEntry (Path := Path)) :
  source_path entry1 = source_path entry2 →
  0 ≤ page_index entry1 → 0 ≤ page_index entry2 →
  label entry1 = label entry2 →
  page_index entry1 = page_index entry2.
Proof.
  unfold label. intros -> H1 H2 Heq.
  apply (inj (String.app _)) in Heq.
  apply (inj (String.app "-p")) in Heq.
  apply format_0d_inj in Heq; lia.
Qed.

End Labels.

Lemma temp_tiff_name_inj_witness :
  temp_tiff_name 12 = "docuworks_00012.tif" ∧ 12%nat = 12%nat.
Proof.
  split; [reflexivity|]. apply temp_tiff_name_inj. reflexivity.
Defined.

Lemma label_inj_witness :
  label (Examples.entry "docA.tiff" 4 "tiff") = "docA.tiff-p005" ∧
  page_index (Examples.entry "docA.tiff" 4 "tiff")
  = page_index (Examples.entry "docA.tiff" 4 "docuworks").
Proof.
  split; [reflexivity|].
  apply label_inj; [reflexivity|cbn; lia|cbn; lia|reflexivity].
Defined.

(** ** Batch import, continued *)
Section MoreAddFiles.
Context {Path : Type} `{PurePath Path}.
Implicit Types (env : Env (Path := Path)) (path : Path) (paths : list Path)
  (page_list : QListWidget (Path := Path)).

Lemma elem_of_range (n i : Z) : i ∈ range n ↔ 0 ≤ i < n.
Proof.
  unfold range. rewrite list_elem_of_fmap. split.
  - intros (k & -> & Hk%elem_of_seq). lia.
  - intros Hi. exists (Z.to_nat i). split; [lia|]. apply elem_of_seq. lia.
Qed.

(** What a row made by [add_files] for [path] looks like. *)
Lemma elem_of_rows_of env path item :
  item ∈ rows_of env path →
  ∃ page_count source_type i,
    try_page_count env path = Some (Ok page_count, source_type) ∧
    item = new_item path source_type i ∧ 0 ≤ i < page_count.
Proof.
  unfold rows_of.
  destruct (try_page_count env path) as [[[n|e] ty]|];
    [|by intros ?%elem_of_nil..].
  intros (i & -> & Hi%elem_of_range)%list_elem_of_fmap. by exists n, ty, i.
Qed.

(** X9.  [add_files] only appends: the rows that were there stay where
    they were, in front of the new ones, and the current row is not
    touched. *)
Theorem add_files_appends env paths page_list :
  items page_list `prefix_of` items (add_files env paths page_list).1 ∧
  currentRow (add_files env paths page_list).1 = currentRow page_list.
Proof.
  rewrite add_files_eq. cbn [fst items currentRow]. split; [|done].
  by apply prefix_app_r.
Qed.

(** X10.  Adding one batch after another lists the same rows as adding
    the two batches joined. *)
Theorem add_files_app env paths1 paths2 page_list :
  (add_files env paths2 (add_files env paths1 page_list).1).1
  = (add_files env (paths1 ++ paths2) page_list).1.
Proof.
  rewrite !add_files_eq. cbn [fst items currentRow].
  by rewrite fmap_app, concat_app, (assoc_L (++)).
Qed.

Lemma rows_of_ok env path : Forall row_ok (rows_of env path).
Proof.
  apply Forall_forall. intros item (n & ty & i & Hc & -> & Hi)%elem_of_rows_of.
  unfold row_ok, new_item. cbn [text data page_index source_type source_path].
  split; [done|]. split; [lia|].
  unfold try_page_count in Hc. repeat case_decide; simplify_eq; auto.
Qed.

(** X11.  Every row is as [add_files] makes rows (its text is the label
    of its entry, its page index is not negative, its source type goes
    with the extension of its path), and this is kept by [add_files] and
    by both moves. *)
Theorem rows_stay_ok env paths page_list :
  Forall row_ok (items page_list) →
  Forall row_ok (items (add_files env paths page_list).1) ∧
  Forall row_ok (items (move_selected_up page_list)) ∧
  Forall row_ok (items (move_selected_down page_list)).
Proof.
  intros Hok. split_and!.
  - rewrite add_files_eq. cbn [fst items]. apply Forall_app. split; [done|].
    apply Forall_concat, Forall_fmap, Forall_true. intros path.
    apply rows_of_ok.
  - destruct (move_selected_up_cases page_list)
      as [->|[(l1 & a & b & l2 & -> & ->)|[_ ->]]]; [done| |done].
    cbn [items] in *. rewrite !Forall_app, !Forall_cons in *. tauto.
  - destruct (move_selected_down_cases page_list)
      as [->|(l1 & a & b & l2 & -> & ->)]; [done|].
    cbn [items] in *. rewrite !Forall_app, !Forall_cons in *. tauto.
Qed.

(** X12.  A page listed by [add_files] exists as long as the files do
    not change: for a raster file the bounds check of [load_tiff_page]
    lets the page through to the decoder, and for a compound document
    the page index is below the page count of the document. *)
Theorem listed_pages_in_range env path item :
  item ∈ rows_of env path →
  (source_type (data item) = "tiff" →
   ∃ img, Image_open env path = Ok img ∧
          load_tiff_page env (source_path (data item)) (page_index (data item))
          = seek_copy img (page_index (data item))) ∧
  (source_type (data item) = "docuworks" →
   ∃ d, xdwopen env path = Ok d ∧ 0 ≤ page_index (data item) < pages d).
Proof.
  intros (n & ty & i & Hc & -> & Hi)%elem_of_rows_of.
  unfold new_item. cbn [data source_type source_path page_index].
  unfold try_page_count in Hc. split; intros ->.
  - repeat case_decide; simplify_eq.
    unfold get_tiff_page_count, load_tiff_page in *.
    destruct (Image_open env path) as [img|e]; [|done]. simplify_eq.
    exists img. split; [done|].
    destruct (Z.ltb_spec (default 1 (n_frames img) - 1) i); [lia|done].
  - repeat case_decide; simplify_eq.
    unfold get_docuworks_page_count in *.
    destruct (xdwopen env path) as [d|e]; [|done].
    destruct (close d); simplify_eq. by exists d.
Qed.

End MoreAddFiles.

Lemma rows_stay_ok_witness :
  Forall row_ok (items DropExamples.four_rows) ∧
  Forall row_ok (items (add_files Examples.env_ok ["docB.xdw"]
                                  DropExamples.four_rows).1).
Proof.
  assert (Hok : Forall row_ok (items DropExamples.four_rows)).
  { repeat constructor; try (left; split; [reflexivity|by vm_compute]);
      try (right; split; [reflexivity|by vm_compute]); by vm_compute. }
  split; [exact Hok|].
  exact (proj1 (rows_stay_ok Examples.env_ok ["docB.xdw"] _ Hok)).
Defined.

Lemma listed_pages_in_range_witness :
  new_item "docA.tiff" "tiff" 2 ∈ rows_of Examples.env_ok "docA.tiff" ∧
  load_tiff_page Examples.env_ok "docA.tiff" 2 = Ok (Examples.gray 2).
Proof.
  assert (Hin : new_item "docA.tiff" "tiff" 2 ∈ rows_of Examples.env_ok "docA.tiff").
  { apply (list_elem_of_lookup_2 _ 2%nat). reflexivity. }
  split; [exact Hin|].
  destruct (proj1 (listed_pages_in_range _ _ _ Hin) eq_refl) as (img & Hopen & Hload).
  injection Hopen as <-. exact Hload.
Defined.

(** ** Drag and drop *)
Section Drop.
Context {Path : Type} `{PurePath Path}.
Implicit Types (env : Env (Path := Path)) (is_file : Path → bool)
  (mime_data : QMimeData) (page_list : QListWidget (Path := Path)).

(** The loop of [extract_supported_paths_from_mime] keeps what this
    function keeps. *)
Lemma extract_loop is_file (l : list QUrl) (acc : list Path) :
  foldl (λ paths url,
           if negb (isLocalFile url) then paths
           else
             let path := Path_of_str (toLocalFile url) in
             if negb (is_file path) then paths
             else if decide (lower (path_suffix path) ∈ SUPPORTED_EXTENSIONS)
                  then paths ++ [path]
                  else paths)
        acc l
  = acc ++ omap (λ url,
                   if isLocalFile url
                      && is_file (Path_of_str (toLocalFile url))
                      && bool_decide (supported (Path_of_str (toLocalFile url)))
                   then Some (Path_of_str (toLocalFile url)) else None) l.
Proof.
  revert acc. induction l as [|url l IH]; intros acc; cbn [foldl omap list_omap].
  - by rewrite app_nil_r.
  - rewrite IH. unfold supported.
    destruct (isLocalFile url); cbn; [|done].
    destruct (is_file (Path_of_str (toLocalFile url))); cbn; [|done].
    case_decide as Hs.
    + rewrite bool_decide_true by done. by rewrite <- (assoc_L (++)).
    + by rewrite bool_decide_false by done.
Qed.

Lemma extract_eq is_file mime_data :
  extract_supported_paths_from_mime is_file mime_data
  = if hasUrls mime_data
    then omap (λ url,
                 if isLocalFile url
                    && is_file (Path_of_str (toLocalFile url))
                    && bool_decide (supported (Path_of_str (toLocalFile url)))
                 then Some (Path_of_str (toLocalFile url)) else None)
              (urls mime_data)
    else [].
Proof.
  unfold extract_supported_paths_from_mime.
  destruct (hasUrls mime_data); cbn [negb]; [|done]. by rewrite extract_loop.
Qed.

Lemma extract_elem_of is_file mime_data p :
  p ∈ extract_supported_paths_from_mime is_file mime_data ↔
  hasUrls mime_data = true ∧
  ∃ url, url ∈ urls mime_data ∧ isLocalFile url = true ∧
         p = Path_of_str (toLocalFile url) ∧
         is_file p = true ∧ supported p.
Proof.
  rewrite extract_eq. destruct (hasUrls mime_data).
  2:{ split; [by intros ?%elem_of_nil|by intros [[=] _]]. }
  rewrite list_elem_of_omap. split.
  - intros (url & Hin & Hp).
    destruct (isLocalFile url) eqn:Hl; [|done].
    destruct (is_file (Path_of_str (toLocalFile url))) eqn:Hf; [|done].
    cbn in Hp. case_bool_decide as Hs; [|done]. simplify_eq.
    split; [done|]. by exists url.
  - intros (_ & url & Hin & Hl & -> & Hf & Hs). exists url. split; [done|].
    by rewrite Hl, Hf, bool_decide_true.
Qed.

(** X13.  The paths taken from a drop are exactly the paths of the
    URLs that are local files, exist and have a supported extension, in
    the order of the URLs and as often as they occur there; without URLs
    there are none. *)
Theorem extract_supported_paths_spec is_file mime_data :
  extract_supported_paths_from_mime is_file mime_data
  = (if hasUrls mime_data
     then filter (λ p, is_file p = true ∧ supported p)
                 ((λ url, Path_of_str (toLocalFile url))
                    <$> filter (λ url, isLocalFile url = true) (urls mime_data))
     else []) ∧
  (∀ p, p ∈ extract_supported_paths_from_mime is_file mime_data ↔
        hasUrls mime_data = true ∧
        ∃ url, url ∈ urls mime_data ∧ isLocalFile url = true ∧
               p = Path_of_str (toLocalFile url) ∧
               is_file p = true ∧ supported p) ∧
  extract_supported_paths_from_mime is_file mime_data
  `sublist_of` ((λ url, Path_of_str (toLocalFile url)) <$> urls mime_data).
Proof.
  split; [|split; [intros p; apply extract_elem_of|]].
  - rewrite extract_eq. destruct (hasUrls mime_data); [|done].
    induction (urls mime_data) as [|url l IH]; [done|].
    cbn [omap list_omap]. rewrite filter_cons.
    destruct (isLocalFile url); cbn [andb].
    + rewrite decide_True by done. rewrite fmap_cons, filter_cons.
      destruct (is_file (Path_of_str (toLocalFile url))) eqn:Hf; cbn [andb].
      * case_bool_decide as Hs.
        -- rewrite decide_True by done. by rewrite IH.
        -- rewrite decide_False by (by intros [_ ?]). exact IH.
      * rewrite decide_False by (by intros [[=] _]). exact IH.
    + rewrite decide_False by done. exact IH.
  - rewrite extract_eq. destruct (hasUrls mime_data); [|apply sublist_nil_l].
    induction (urls mime_data) as [|url l IH]; [done|]. cbn.
    destruct (_ && _ && _); [by apply sublist_skip|by apply sublist_cons].
Qed.

(** X14.  A drag is accepted exactly when the drop would bring at least
    one file: some URL is a local file that exists and has a supported
    extension.  Entering and moving answer alike. *)
Theorem dragEnterEvent_accepts is_file mime_data :
  (dragEnterEvent is_file mime_data = true ↔
   hasUrls mime_data = true ∧
   ∃ url, url ∈ urls mime_data ∧ isLocalFile url = true ∧
          is_file (Path_of_str (toLocalFile url)) = true ∧
          supported (Path_of_str (toLocalFile url))) ∧
  dragMoveEvent is_file mime_data = dragEnterEvent is_file mime_data.
Proof.
  split; [|done]. unfold dragEnterEvent.
  pose proof (extract_elem_of is_file mime_data) as Hspec.
  destruct (extract_supported_paths_from_mime is_file mime_data) as [|p paths].
  - split; [done|]. intros (Hu & url & Hin & Hl & Hf & Hs). exfalso.
    apply (elem_of_nil (Path_of_str (toLocalFile url))), Hspec. eauto 10.
  - split; [|done]. intros _.
    destruct (proj1 (Hspec p)) as (Hu & url & Hin & Hl & -> & Hf & Hs).
    { apply elem_of_cons. by left. }
    eauto 10.
Qed.

(** X15.  A drop is accepted exactly when the drag was.  A drop that
    is ignored changes nothing and shows nothing.  A drop that is
    accepted is the batch import of the extracted paths.  Every one of
    them has a supported extension, so none is skipped: a path whose
    page count is determined lists one row per page, in page order, and
    a path whose page count cannot be determined lists nothing and is
    named in the one warning, which has as many lines as there are such
    paths (no warning when there is none). *)
Theorem dropEvent_spec env is_file mime_data page_list :
  let paths := extract_supported_paths_from_mime is_file mime_data in
  let M := length (filter (fails_to_count env) paths) in
  (dropEvent env is_file mime_data page_list).1 = dragEnterEvent is_file mime_data ∧
  ((dropEvent env is_file mime_data page_list).1 = false →
   (dropEvent env is_file mime_data page_list).2 = (page_list, [])) ∧
  (dropEvent env is_file mime_data page_list).2 = add_files env paths page_list ∧
  Forall supported paths ∧
  items (dropEvent env is_file mime_data page_list).2.1
  = items page_list ++ concat (rows_of env <$> paths) ∧
  Forall (λ path,
            (fails_to_count env path ∧ rows_of env path = []) ∨
            (¬ fails_to_count env path ∧
             ∃ page_count source_type,
               try_page_count env path = Some (Ok page_count, source_type) ∧
               rows_of env path = new_item path source_type <$> range page_count))
         paths ∧
  length (omap (error_of env) paths) = M ∧
  (dropEvent env is_file mime_data page_list).2.2
  = (if decide (M = 0%nat) then []
     else [QMessageBox_warning (omap (error_of env) paths)]).
Proof.
  intros paths M.
  assert (Hsup : Forall supported paths).
  { apply Forall_forall. intros p Hp.
    by apply (extract_elem_of is_file mime_data) in Hp
      as (_ & _ & _ & _ & _ & _ & ?). }
  assert (Hdrop : (dropEvent env is_file mime_data page_list).2
                  = add_files env paths page_list).
  { unfold dropEvent. fold paths. by destruct paths. }
  rewrite Hdrop.
  split; [unfold dropEvent, dragEnterEvent; fold paths; by destruct paths|].
  split; [unfold dropEvent; fold paths; by destruct paths|].
  split; [done|]. split; [done|].
  rewrite add_files_eq. cbn [fst snd items].
  split; [done|]. split; [|split; [apply errors_count|]].
  - eapply Forall_impl; [exact Hsup|]. intros path Hs. cbn beta.
    apply (try_page_count_supported env) in Hs as [[[n|e] ty] Hc].
    + right. unfold fails_to_count, error_of, rows_of. rewrite Hc.
      split; [by intros [? ?]|]. by exists n, ty.
    + left. unfold fails_to_count, error_of, rows_of. rewrite Hc.
      split; [by eexists|done].
  - pose proof (errors_count env paths) as Hlen. fold M in Hlen.
    destruct (omap (error_of env) paths); case_decide; cbn in Hlen;
      try done; lia.
Qed.

End Drop.

Lemma dropEvent_spec_witness :
  (dropEvent Examples.env_ok DropExamples.on_disk DropExamples.dropped
             Examples.empty_list).1 = true ∧
  extract_supported_paths_from_mime DropExamples.on_disk DropExamples.dropped
  = ["docA.tiff"; "docB.xdw"] ∧
  (dropEvent Examples.env_ok DropExamples.on_disk DropExamples.dropped
             Examples.empty_list).2.2 = [].
Proof.
  pose proof (dropEvent_spec Examples.env_ok DropExamples.on_disk
                DropExamples.dropped Examples.empty_list)
    as (Hacc & _ & _ & _ & _ & _ & _ & Hmsg).
  split; [rewrite Hacc; reflexivity|]. split; [reflexivity|exact Hmsg].
Defined.

Lemma extract_supported_paths_spec_witness :
  extract_supported_paths_from_mime DropExamples.on_disk DropExamples.dropped_twice
  = ["docA.tiff"; "docB.xdw"; "docA.tiff"].
Proof.
  rewrite (proj1 (extract_supported_paths_spec DropExamples.on_disk
                    DropExamples.dropped_twice)).
  reflexivity.
Defined.

Lemma dragEnterEvent_accepts_witness :
  dragEnterEvent DropExamples.on_disk DropExamples.dropped = true.
Proof.
  apply (proj1 (dragEnterEvent_accepts DropExamples.on_disk DropExamples.dropped)).
  split; [reflexivity|]. exists (DropExamples.local "docA.tiff").
  split_and!; [|reflexivity|reflexivity|by vm_compute].
  apply (list_elem_of_lookup_2 _ 0%nat). reflexivity.
Defined.

(** ** The merge pipeline, continued *)
Section MoreMerge.
Context {Path : Type} `{PurePath Path}.
Implicit Types (env : Env (Path := Path)) (s : MergeState (Path := Path))
  (entry : PageEntry (Path := Path)) (entries : list (PageEntry (Path := Path)))
  (docs : list (Path * (nat * XdwDocument))) (evs : list (Event (Path := Path))).

Lemma exports_app evs1 evs2 : exports (evs1 ++ evs2) = exports evs1 ++ exports evs2.
Proof. apply omap_app. Qed.

Lemma exports_closing c : exports (Path := Path) (closing_events c) = [].
Proof.
  unfold closing_events. rewrite exports_app.
  assert (Hcl : ∀ hs : list nat, exports (Path := Path) (EvXdwClose <$> hs) = []).
  { intros hs. induction hs; cbn; auto. }
  rewrite Hcl. by destruct c as [hs [[h e]|]].
Qed.

(** A merge that returns has resolved every page and saved the frames
    once. *)
Lemma merge_ok env entries output_path compression s :
  create_merged_tiff env entries output_path compression initial = (Ok tt, s) →
  ∃ fs, spec_pages env compression entries = Ok fs ∧
        saves (events s) = [(output_path, fs, compression, (400, 400))].
Proof.
  intros Hrun.
  destruct (merge_observations _ _ _ _ _ _ Hrun)
    as (r1 & s1 & _ & _ & Hres & _ & _ & _ & _ & _ & Hr & Hsaves & _).
  cbn zeta in *.
  destruct (spec_pages env compression entries) as [fs|e].
  - destruct Hres as (_ & <- & _). exists (frames s1). split; [done|]. auto.
  - subst r1. by destruct (closing (xdw_docs s1)).2 as [[? ?]|].
Qed.

(** The trace of a call: the loop, the closing loop, the removal of the
    directory, and then at most the save. *)
Lemma merge_trace env entries output_path compression r s :
  create_merged_tiff env entries output_path compression initial = (r, s) →
  ∃ r1 s1 tl,
    page_loop env compression 0 entries entered = (r1, s1) ∧
    events s = events s1 ++ closing_events (closing (xdw_docs s1))
               ++ [EvRmtree] ++ tl ∧
    ((r = Ok tt ∧ (closing (xdw_docs s1)).2 = None ∧
      ∃ saved, tl = [EvSave output_path saved compression (400, 400)]) ∨
     (is_Ok r = false ∧ (tl = [] ∨ tl = [EvSaveFailed output_path]))).
Proof.
  rewrite create_merged_tiff_unfold.
  destruct (page_loop env compression 0 entries entered) as [r1 s1].
  cbn zeta. rewrite save_frames_spec. unfold set_events.
  cbn [temp_dir frames xdw_docs next_handle events].
  intros Hrun. exists r1, s1.
  destruct (closing (xdw_docs s1)) as [hs [[h e]|]] eqn:Hc; cbn [fst snd] in *.
  { injection Hrun as <- <-. exists []. rewrite app_nil_r. auto 10. }
  destruct r1 as [[]|e].
  2:{ injection Hrun as <- <-. exists []. rewrite app_nil_r. auto 10. }
  destruct (frames s1) as [|first rest].
  { injection Hrun as <- <-. exists []. rewrite app_nil_r. auto 10. }
  destruct (Image_save env output_path first rest compression) as [e|];
    injection Hrun as <- <-; cbn [events]; eexists;
    (split; [done|]); rewrite <- !(assoc_L (++)); (split; [done|]); eauto 10.
Qed.

(** X16.  A merge that returns has closed every document it opened,
    each exactly once, and no [close] has raised, whatever the
    environment. *)
Theorem returned_merge_closed_all env entries output_path compression s :
  create_merged_tiff env entries output_path compression initial = (Ok tt, s) →
  close_failures (events s) = [] ∧
  closed (events s) = (opened (events s)).*2 ∧
  NoDup (closed (events s)).
Proof.
  intros Hrun.
  destruct (merge_observations _ _ _ _ _ _ Hrun)
    as (r1 & s1 & Hinv & _ & _ & _ & Hop & _ & Hcl & Hf & Hr & _).
  cbn zeta in *.
  destruct (opened_handles_cache _ _ Hinv) as [Hhandles _].
  destruct (closing (xdw_docs s1)).2 as [[h e]|] eqn:Hc; [done|].
  rewrite Hf, Hcl, Hop, Hhandles, (closing_complete _ Hc).
  split_and!; [done..|]. rewrite (inv_handles _ _ _ Hinv). apply NoDup_seq.
Qed.

(** X17.  The output is written last: in a merge that returns, the save
    comes directly after the removal of the temporary directory, and
    nothing before it has touched the output path. *)
Theorem save_comes_last env entries output_path compression s :
  create_merged_tiff env entries output_path compression initial = (Ok tt, s) →
  ∃ before saved,
    events s = before ++ [EvRmtree; EvSave output_path saved compression (400, 400)] ∧
    Forall (λ ev, writes_output ev = false) before ∧
    closed before = (opened before).*2.
Proof.
  intros Hrun.
  destruct (merge_trace _ _ _ _ _ _ Hrun)
    as (r1 & s1 & tl & Hloop & Hev & [(_ & Hc & saved & ->)|[[=] _]]).
  destruct (page_loop_spec 0 env compression entries 0%nat entered
              (cache_inv_entered env)) as (r1' & s1' & Hloop' & Hinv & _).
  rewrite Hloop in Hloop'. injection Hloop' as <- <-.
  exists (events s1 ++ closing_events (closing (xdw_docs s1))), saved.
  split_and!.
  - rewrite Hev, <- !(assoc_L (++)). done.
  - apply Forall_app. split; [apply (inv_no_output _ _ _ Hinv)|].
    apply closing_no_output.
  - destruct (opened_handles_cache _ _ Hinv) as [Hhandles _].
    rewrite closed_app, opened_app, closed_closing, opened_closing, app_nil_r.
    rewrite (closed_close_calls _ (inv_no_close _ _ _ Hinv)), Hhandles.
    by rewrite (closing_complete _ Hc).
Qed.

(** The saves of a call are those of what follows the removal of the
    directory. *)
Lemma merge_saves_tail env entries output_path compression r s :
  create_merged_tiff env entries output_path compression initial = (r, s) →
  temp_dir s = None ∧
  ∃ tl, saves (events s) = saves tl ∧
        ((r = Ok tt ∧
          ∃ saved, tl = [EvSave output_path saved compression (400, 400)]) ∨
         (is_Ok r = false ∧ (tl = [] ∨ tl = [EvSaveFailed output_path]))).
Proof.
  intros Hrun.
  destruct (merge_observations _ _ _ _ _ _ Hrun)
    as (_ & _ & _ & _ & _ & Htmp & _).
  destruct (merge_trace _ _ _ _ _ _ Hrun)
    as (r1 & s1 & tl & Hloop & Hev & Hcases).
  destruct (page_loop_spec 0 env compression entries 0%nat entered
              (cache_inv_entered env)) as (r1' & s1' & Hloop' & Hinv & _).
  rewrite Hloop in Hloop'. injection Hloop' as <- <-.
  split; [done|]. exists tl. split.
  - rewrite Hev, !saves_app.
    rewrite (saves_no_output _ (inv_no_output _ _ _ Hinv)).
    by rewrite (saves_no_output _ (closing_no_output _)).
  - destruct Hcases as [(? & _ & ?)|?]; auto.
Qed.

(** X18.  Whatever the outcome, the temporary directory is gone when
    the call ends; a call that raises has completed no save, and no call
    saves twice. *)
Theorem merge_cleans_up_always env entries output_path compression r s :
  create_merged_tiff env entries output_path compression initial = (r, s) →
  temp_dir s = None ∧
  (is_Ok r = false → saves (events s) = []) ∧
  (length (saves (events s)) ≤ 1)%nat.
Proof.
  intros Hrun.
  destruct (merge_saves_tail _ _ _ _ _ _ Hrun) as (Htmp & tl & -> & Hcases).
  split; [done|].
  destruct Hcases as [(-> & saved & ->)|[Hr [->| ->]]]; cbn;
    (split; [done || by intros [=]|lia]).
Qed.

Lemma ensure_group4_mode_result env (img once : Image) :
  ensure_group4_mode env img = Ok once →
  mode once = "1" ∧ img_size once = img_size img.
Proof.
  unfold ensure_group4_mode.
  destruct (String.eqb (mode img) "1") eqn:Hm.
  - intros [= <-]. by apply String.eqb_eq in Hm.
  - destruct (convert_1 env img); [|done]. by intros [= <-].
Qed.

(** X19.  With the scheme ["group4"] every frame handed to the save is
    bi-level (mode ["1"]). *)
Theorem group4_saves_bilevel env entries output_path s :
  create_merged_tiff env entries output_path "group4" initial = (Ok tt, s) →
  ∃ saved, saves (events s) = [(output_path, saved, "group4", (400, 400))] ∧
           Forall (λ frame, mode frame = "1") saved.
Proof.
  intros (fs & Hspec & Hsaves)%merge_ok. exists fs. split; [done|].
  apply spec_pages_Forall2 in Hspec. clear Hsaves.
  induction Hspec as [|entry f entries fs Hpage _ IH]; constructor; [|done].
  unfold spec_page, spec_normalize in Hpage. cbn in Hpage.
  destruct (spec_extract_frame env entry); [|done].
  by apply ensure_group4_mode_result in Hpage as [? _].
Qed.

(** X20.  With any other scheme the frames are saved as they were
    extracted: the [i]-th saved frame is the frame of the [i]-th page
    reference, unconverted. *)
Theorem other_schemes_save_unchanged env entries output_path compression s :
  compression ≠ "group4" →
  create_merged_tiff env entries output_path compression initial = (Ok tt, s) →
  ∃ saved, saves (events s) = [(output_path, saved, compression, (400, 400))] ∧
           Forall2 (λ entry frame, spec_extract_frame env entry = Ok frame)
                   entries saved.
Proof.
  intros Hne (fs & Hspec & Hsaves)%merge_ok. exists fs. split; [done|].
  apply spec_pages_Forall2 in Hspec.
  eapply Forall2_impl; [exact Hspec|]. intros entry f. cbn beta.
  unfold spec_page, spec_normalize.
  destruct (String.eqb compression "group4") eqn:Hc.
  { by apply String.eqb_eq in Hc. }
  by destruct (spec_extract_frame env entry).
Qed.

(** A catalog of raster pages leaves the cache and the trace alone. *)
Lemma page_loop_raster env compression entries :
  Forall (λ entry, source_type entry = "tiff") entries →
  ∀ order s,
    events (page_loop env compression order entries s).2 = events s ∧
    xdw_docs (page_loop env compression order entries s).2 = xdw_docs s.
Proof.
  induction 1 as [|entry entries Ht _ IH]; intros order s; [done|].
  rewrite page_loop_cons, Ht.
  change (String.eqb "tiff" "tiff") with true. cbn iota. unfold lift.
  destruct (load_tiff_page env (source_path entry) (page_index entry))
    as [frame|e]; [|done].
  destruct (spec_normalize env compression frame) as [frame'|e]; [|done].
  destruct (IH (S order)
              {| temp_dir := temp_dir s; frames := frames s ++ [frame'];
                 xdw_docs := xdw_docs s; next_handle := next_handle s;
                 events := events s |}) as [-> ->].
  done.
Qed.

(** X21.  A merge of raster pages only opens no document and renders
    nothing: apart from creating and removing the temporary directory,
    all it does is the write to the output path. *)
Theorem raster_only_merge env entries output_path compression r s :
  Forall (λ entry, source_type entry = "tiff") entries →
  create_merged_tiff env entries output_path compression initial = (r, s) →
  ∃ tl, events s = EvMkdtemp :: EvRmtree :: tl ∧
        Forall (λ ev, writes_output ev = true) tl.
Proof.
  intros Hraster Hrun.
  destruct (merge_trace _ _ _ _ _ _ Hrun)
    as (r1 & s1 & tl & Hloop & Hev & Hcases).
  destruct (page_loop_raster env compression entries Hraster 0%nat entered)
    as [He Hd].
  rewrite Hloop in He, Hd. cbn [snd entered events xdw_docs] in He, Hd.
  rewrite He, Hd in Hev. exists tl. split; [done|].
  destruct Hcases as [(_ & _ & saved & ->)|[_ [->| ->]]]; by repeat constructor.
Qed.

(** Rendering one page writes at most the artifact of its position. *)
Lemma convert_exports env entry order s :
  exports (events (convert_docuworks_page env entry order s).2)
  = exports (events s) ∨
  exports (events (convert_docuworks_page env entry order s).2)
  = exports (events s) ++ [temp_tiff_name order].
Proof.
  assert (Hcached : ∀ s0 doc,
    dict_get (source_path entry) (xdw_docs s0) = Some doc →
    exports (events (convert_docuworks_page env entry order s0).2)
    = exports (events s0) ∨
    exports (events (convert_docuworks_page env entry order s0).2)
    = exports (events s0) ++ [temp_tiff_name order]).
  { intros s0 [handle d] Hget. destruct (temp_dir s0) as [dir|] eqn:Hdir.
    - rewrite (convert_docuworks_page_cached _ _ _ _ _ _ _ Hget Hdir).
      destruct (export_image d (page_index entry)); [|by left].
      right. cbn [snd events]. by rewrite exports_app.
    - left. unfold convert_docuworks_page. rewrite Hget, Hdir.
      by destruct (export_image d (page_index entry)). }
  destruct (dict_get (source_path entry) (xdw_docs s)) as [doc|] eqn:Hget.
  { by apply (Hcached s doc). }
  destruct (xdwopen env (source_path entry)) as [d|e] eqn:Hopen.
  - rewrite (convert_docuworks_page_open _ _ _ _ _ Hget Hopen).
    set (s' := {| temp_dir := temp_dir s; frames := frames s;
                  xdw_docs := xdw_docs s
                              ++ [(source_path entry, (next_handle s, d))];
                  next_handle := S (next_handle s);
                  events := events s
                            ++ [EvXdwOpen (source_path entry) (next_handle s)] |}).
    assert (Hget' : dict_get (source_path entry) (xdw_docs s')
                    = Some (next_handle s, d)) by (by apply dict_get_snoc).
    assert (Hsame : exports (events s') = exports (events s)).
    { unfold s'. cbn [events]. rewrite exports_app. cbn. by rewrite app_nil_r. }
    rewrite <- Hsame. by apply (Hcached s' _ Hget').
  - left. by rewrite (convert_docuworks_page_unopened _ _ _ _ _ Hget Hopen).
Qed.

Lemma page_loop_exports env compression entries :
  ∀ order s,
    ∃ ks, exports (events (page_loop env compression order entries s).2)
          = exports (events s) ++ (temp_tiff_name <$> ks) ∧
          ks `sublist_of` seq order (length entries).
Proof.
  induction entries as [|entry entries IH]; intros order s.
  { exists []. cbn. by rewrite app_nil_r. }
  rewrite page_loop_cons. cbn [length seq].
  assert (Hstep : ∃ k0, k0 `sublist_of` [order] ∧
    exports (events (if String.eqb (source_type entry) "tiff"
                     then lift (load_tiff_page env (source_path entry)
                                               (page_index entry)) s
                     else convert_docuworks_page env entry order s).2)
    = exports (events s) ++ (temp_tiff_name <$> k0)).
  { destruct (String.eqb (source_type entry) "tiff").
    - exists []. split; [apply sublist_nil_l|]. cbn. by rewrite app_nil_r.
    - destruct (convert_exports env entry order s) as [->| ->].
      + exists []. split; [apply sublist_nil_l|]. cbn. by rewrite app_nil_r.
      + by exists [order]. }
  destruct Hstep as (k0 & Hk0 & Hex).
  destruct (if String.eqb (source_type entry) "tiff"
            then lift (load_tiff_page env (source_path entry) (page_index entry)) s
            else convert_docuworks_page env entry order s) as [[frame|e] s1].
  2:{ exists k0. split; [done|].
      change (order :: seq (S order) (length entries))
        with ([order] ++ seq (S order) (length entries)).
      by apply sublist_inserts_r. }
  cbn [snd] in Hex.
  destruct (spec_normalize env compression frame) as [frame'|e].
  2:{ exists k0. split; [done|].
      change (order :: seq (S order) (length entries))
        with ([order] ++ seq (S order) (length entries)).
      by apply sublist_inserts_r. }
  destruct (IH (S order)
              {| temp_dir := temp_dir s1; frames := frames s1 ++ [frame'];
                 xdw_docs := xdw_docs s1; next_handle := next_handle s1;
                 events := events s1 |}) as (ks & -> & Hks).
  exists (k0 ++ ks). cbn [events]. split.
  - by rewrite Hex, fmap_app, (assoc_L (++)).
  - change (order :: seq (S order) (length entries))
      with ([order] ++ seq (S order) (length entries)).
    by apply sublist_app.
Qed.

(** X22.  Within one merge no artifact is written twice: the names of
    the files rendered into the temporary directory are all different,
    and each is the name of a position of the list of page references. *)
Theorem artifacts_never_collide env entries output_path compression r s :
  create_merged_tiff env entries output_path compression initial = (r, s) →
  NoDup (exports (events s)) ∧
  ∀ name, name ∈ exports (events s) →
          ∃ order, (order < length entries)%nat ∧ name = temp_tiff_name order.
Proof.
  intros Hrun.
  destruct (merge_trace _ _ _ _ _ _ Hrun)
    as (r1 & s1 & tl & Hloop & Hev & Hcases).
  destruct (page_loop_exports env compression entries 0%nat entered)
    as (ks & Hex & Hks).
  rewrite Hloop in Hex. cbn [snd entered events exports omap list_omap app] in Hex.
  assert (Hall : exports (events s) = temp_tiff_name <$> ks).
  { rewrite Hev, !exports_app, Hex, exports_closing.
    destruct Hcases as [(_ & _ & saved & ->)|[_ [->| ->]]]; cbn;
      by rewrite app_nil_r. }
  rewrite Hall. split.
  - apply NoDup_fmap_2_strong.
    + intros i j _ _ Heq. unfold temp_tiff_name in Heq.
      apply (inj (String.app "docuworks_")), string_app_inv_tail in Heq.
      apply format_0d_inj in Heq; lia.
    + eapply sublist_NoDup; [apply NoDup_seq|exact Hks].
  - intros name (order & -> & Hin)%list_elem_of_fmap. exists order. split; [|done].
    apply (elem_of_sublist _ _ _ Hin), elem_of_seq in Hks. lia.
Qed.

(** X23.  What [export_tiff] tells the user is what happened.  The
    completion message names the path that was saved, with one frame
    per row; that path is the chosen one when it has a raster extension
    and the chosen one with its suffix replaced otherwise.  The error
    message means that no save was completed and the temporary directory
    is gone.  An exception of the merge never escapes: [export_tiff]
    raises only when the suffix cannot be replaced, before any merge.
    At most one message is shown. *)
Theorem export_tiff_reports env compression (page_list : QListWidget (Path := Path))
    r dialogs s :
  export_tiff env compression page_list = (r, dialogs, s) →
  (∀ p, QMessageBox_information_done p ∈ dialogs →
        r = Ok tt ∧
        (∃ saved, saves (events s) = [(p, saved, compression, (400, 400))] ∧
                  length saved = length (items page_list)) ∧
        ((p = Path_of_str (getSaveFileName env) ∧
          lower (path_suffix p) ∈ TIFF_EXTENSIONS) ∨
         ((lower (path_suffix (Path_of_str (getSaveFileName env)))
           ∉ TIFF_EXTENSIONS) ∧
          with_suffix (Path_of_str (getSaveFileName env)) ".tif" = Ok p))) ∧
  (∀ exc, QMessageBox_critical exc ∈ dialogs →
          r = Ok tt ∧ saves (events s) = [] ∧ temp_dir s = None) ∧
  (∀ e, r = Raise e →
        dialogs = [] ∧ s = initial ∧
        with_suffix (Path_of_str (getSaveFileName env)) ".tif" = Raise e) ∧
  (length dialogs ≤ 1)%nat.
Proof.
  unfold export_tiff.
  destruct (count page_list =? 0).
  { intros [= <- <- <-]. split_and!; [| |done|cbn; lia].
    - by intros p [[=]|?%elem_of_nil]%elem_of_cons.
    - by intros p [[=]|?%elem_of_nil]%elem_of_cons. }
  destruct (String.eqb (getSaveFileName env) EmptyString).
  { intros [= <- <- <-]. split_and!; [| |done|cbn; lia].
    - by intros p ?%elem_of_nil.
    - by intros p ?%elem_of_nil. }
  set (chosen := Path_of_str (getSaveFileName env)).
  destruct (decide (lower (path_suffix chosen) ∈ TIFF_EXTENSIONS)) as [Hext|Hext].
  - destruct (create_merged_tiff env (collect_entries page_list) chosen
                                 compression initial) as [[[]|exc] s'] eqn:Hrun;
      intros [= <- <- <-]; (split_and!; [| |done|cbn; lia]).
    + intros p [[= <-]|?%elem_of_nil]%elem_of_cons; [|done].
      split_and!; [done| |by left].
      destruct (merge_ok _ _ _ _ _ Hrun) as (fs & Hspec & Hsaves).
      exists fs. split; [done|].
      apply spec_pages_Forall2, Forall2_length in Hspec.
      unfold collect_entries in Hspec. by rewrite length_fmap in Hspec.
    + by intros p [[=]|?%elem_of_nil]%elem_of_cons.
    + by intros p [[=]|?%elem_of_nil]%elem_of_cons.
    + intros p [[= <-]|?%elem_of_nil]%elem_of_cons; [|done].
      destruct (merge_saves_tail _ _ _ _ _ _ Hrun)
        as (Htmp & tl & Hs & [([=] & _)|[_ [->| ->]]]);
        by rewrite Hs.
  - destruct (with_suffix chosen ".tif") as [renamed|e] eqn:Hren.
    2:{ intros [= <- <- <-]. split_and!; [| | |cbn; lia].
        - by intros p ?%elem_of_nil.
        - by intros p ?%elem_of_nil.
        - by intros e' [= <-]. }
    destruct (create_merged_tiff env (collect_entries page_list) renamed
                                 compression initial) as [[[]|exc] s'] eqn:Hrun;
      intros [= <- <- <-]; (split_and!; [| |done|cbn; lia]).
    + intros p [[= <-]|?%elem_of_nil]%elem_of_cons; [|done].
      split_and!; [done| |by right].
      destruct (merge_ok _ _ _ _ _ Hrun) as (fs & Hspec & Hsaves).
      exists fs. split; [done|].
      apply spec_pages_Forall2, Forall2_length in Hspec.
      unfold collect_entries in Hspec. by rewrite length_fmap in Hspec.
    + by intros p [[=]|?%elem_of_nil]%elem_of_cons.
    + by intros p [[=]|?%elem_of_nil]%elem_of_cons.
    + intros p [[= <-]|?%elem_of_nil]%elem_of_cons; [|done].
      destruct (merge_saves_tail _ _ _ _ _ _ Hrun)
        as (Htmp & tl & Hs & [([=] & _)|[_ [->| ->]]]);
        by rewrite Hs.
Qed.

End MoreMerge.

Lemma returned_merge_closed_all_witness :
  ∃ s, create_merged_tiff Examples.env_ok Examples.catalog_two_docs
                          "merged_output.tif" "tiff_lzw" initial = (Ok tt, s) ∧
       closed (events s) = [0%nat; 1%nat] ∧
       closed (events s) = (opened (events s)).*2.
Proof.
  eexists.
  assert (Hrun : create_merged_tiff Examples.env_ok Examples.catalog_two_docs
                   "merged_output.tif" "tiff_lzw" initial = (Ok tt, _))
    by (vm_compute; reflexivity).
  destruct (returned_merge_closed_all _ _ _ _ _ Hrun) as (_ & Hall & _).
  split_and!; [exact Hrun|reflexivity|exact Hall].
Defined.

Lemma save_comes_last_witness :
  ∃ s before saved,
    create_merged_tiff Examples.env_ok Examples.catalog_example
                       "merged_output.tif" "group4" initial = (Ok tt, s) ∧
    events s = before ++ [EvRmtree;
                          EvSave "merged_output.tif" saved "group4" (400, 400)].
Proof.
  eexists.
  assert (Hrun : create_merged_tiff Examples.env_ok Examples.catalog_example
                   "merged_output.tif" "group4" initial = (Ok tt, _))
    by (vm_compute; reflexivity).
  destruct (save_comes_last _ _ _ _ _ Hrun) as (before & saved & Hev & _).
  exists before, saved. split; [exact Hrun|exact Hev].
Defined.

Lemma merge_cleans_up_always_witness :
  ∃ r s, create_merged_tiff Examples.env_close_fails Examples.catalog_two_docs
                            "merged_output.tif" "tiff_lzw" initial = (r, s) ∧
         is_Ok r = false ∧ temp_dir s = None ∧ saves (events s) = [].
Proof.
  do 2 eexists.
  assert (Hrun : create_merged_tiff Examples.env_close_fails
                   Examples.catalog_two_docs
                   "merged_output.tif" "tiff_lzw" initial = (_, _))
    by (vm_compute; reflexivity).
  destruct (merge_cleans_up_always _ _ _ _ _ _ Hrun) as (Htmp & Hno & _).
  split_and!; [exact Hrun|reflexivity|exact Htmp|exact (Hno eq_refl)].
Defined.

Lemma group4_saves_bilevel_witness :
  ∃ s saved,
    create_merged_tiff Examples.env_ok Examples.catalog_example
                       "merged_output.tif" "group4" initial = (Ok tt, s) ∧
    saves (events s) = [("merged_output.tif", saved, "group4", (400, 400))] ∧
    Forall (λ frame, mode frame = "1") saved.
Proof.
  eexists.
  assert (Hrun : create_merged_tiff Examples.env_ok Examples.catalog_example
                   "merged_output.tif" "group4" initial = (Ok tt, _))
    by (vm_compute; reflexivity).
  destruct (group4_saves_bilevel _ _ _ _ Hrun) as (saved & Hs & Hm).
  exists saved. split_and!; [exact Hrun|exact Hs|exact Hm].
Defined.

Lemma other_schemes_save_unchanged_witness :
  ∃ s saved,
    "tiff_lzw" ≠ "group4" ∧
    create_merged_tiff Examples.env_ok Examples.catalog_example
                       "merged_output.tif" "tiff_lzw" initial = (Ok tt, s) ∧
    saves (events s) = [("merged_output.tif", saved, "tiff_lzw", (400, 400))] ∧
    Forall2 (λ entry frame, spec_extract_frame Examples.env_ok entry = Ok frame)
            Examples.catalog_example saved.
Proof.
  eexists.
  assert (Hne : "tiff_lzw" ≠ "group4") by discriminate.
  assert (Hrun : create_merged_tiff Examples.env_ok Examples.catalog_example
                   "merged_output.tif" "tiff_lzw" initial = (Ok tt, _))
    by (vm_compute; reflexivity).
  destruct (other_schemes_save_unchanged _ _ _ _ _ Hne Hrun) as (saved & Hs & Hf).
  exists saved. split_and!; [exact Hne|exact Hrun|exact Hs|exact Hf].
Defined.

Lemma raster_only_merge_witness :
  ∃ r s tl,
    Forall (λ entry, source_type entry = "tiff") DropExamples.catalog_raster ∧
    create_merged_tiff Examples.env_ok DropExamples.catalog_raster
                       "merged_output.tif" "group4" initial = (r, s) ∧
    events s = EvMkdtemp :: EvRmtree :: tl.
Proof.
  do 2 eexists.
  assert (Hraster : Forall (λ entry, source_type entry = "tiff")
                      DropExamples.catalog_raster) by (by repeat constructor).
  assert (Hrun : create_merged_tiff Examples.env_ok DropExamples.catalog_raster
                   "merged_output.tif" "group4" initial = (_, _))
    by (vm_compute; reflexivity).
  destruct (raster_only_merge _ _ _ _ _ _ Hraster Hrun) as (tl & Hev & _).
  exists tl. split_and!; [exact Hraster|exact Hrun|exact Hev].
Defined.

Lemma artifacts_never_collide_witness :
  ∃ r s,
    create_merged_tiff Examples.env_ok Examples.catalog_two_docs
                       "merged_output.tif" "tiff_lzw" initial = (r, s) ∧
    exports (events s)
    = ["docuworks_00000.tif"; "docuworks_00001.tif"; "docuworks_00002.tif"] ∧
    NoDup (exports (events s)).
Proof.
  do 2 eexists.
  assert (Hrun : create_merged_tiff Examples.env_ok Examples.catalog_two_docs
                   "merged_output.tif" "tiff_lzw" initial = (_, _))
    by (vm_compute; reflexivity).
  destruct (artifacts_never_collide _ _ _ _ _ _ Hrun) as (Hnd & _).
  split_and!; [exact Hrun|reflexivity|exact Hnd].
Defined.

Lemma export_tiff_reports_witness :
  ∃ s saved,
    export_tiff Examples.env_ok "group4" Examples.three_rows
    = (Ok tt, [QMessageBox_information_done "merged_output.tif"], s) ∧
    saves (events s) = [("merged_output.tif", saved, "group4", (400, 400))] ∧
    length saved = 3%nat.
Proof.
  eexists.
  assert (Hrun : export_tiff Examples.env_ok "group4" Examples.three_rows
                 = (Ok tt, [QMessageBox_information_done "merged_output.tif"], _))
    by (vm_compute; reflexivity).
  destruct (export_tiff_reports _ _ _ _ _ _ Hrun) as (Hdone & _).
  destruct (Hdone "merged_output.tif") as (_ & (saved & Hs & Hlen) & _).
  { apply elem_of_cons. by left. }
  exists saved. split_and!; [exact Hrun|exact Hs|exact Hlen].
Defined.
